(** * Two-wheel balancing robot: the DQN policy network

    A shallow embedding of the three generated model files
    [src/models/{good,great,okayish}_two_wheel_bot_dqn_*.cpp] and the
    properties of the inference engine they contain.

    Numbers are IEEE 754 values in the sense of [SpecFloat]: C++ [float] is
    binary32 (precision 24, emax 128), C++ [double] is binary64 (precision 53,
    emax 1024), every operation rounds to nearest, ties to even, and
    expressions are evaluated in the type the usual arithmetic conversions
    give them.  The source tests no index and has no error path: an array
    access outside its bounds and a read of a local before its first
    assignment are undefined behaviour in C++.  The embedding marks both
    as faults, so that a theorem that a call returns a value shows that
    the call stays within defined behaviour. *)

From Stdlib Require Import ZArith List Bool Lia.
From Stdlib Require Import Floats.SpecFloat.
Import ListNotations.
Local Open Scope Z_scope.

(** ** Floating-point model *)

Definition float := spec_float.
Definition double := spec_float.

Module F32.
Definition prec : Z := 24.
Definition emax : Z := 128.
Definition add : float -> float -> float := SFadd prec emax.
Definition mul : float -> float -> float := SFmul prec emax.
Definition div : float -> float -> float := SFdiv prec emax.
Definition of_int (n : Z) : float := binary_normalize prec emax n 0 false.
End F32.

Module F64.
Definition prec : Z := 53.
Definition emax : Z := 1024.
Definition div : double -> double -> double := SFdiv prec emax.
Definition of_int (n : Z) : double := binary_normalize prec emax n 0 false.
End F64.

(** [a < b] and [a > b]; both are false as soon as one side is a NaN. *)
Definition flt (a b : spec_float) : bool := SFltb a b.
Definition fgt (a b : spec_float) : bool := SFltb b a.
Definition fle (a b : spec_float) : bool := SFleb a b.
Definition feq (a b : spec_float) : bool := SFeqb a b.

(** Conversion between formats: the value is rounded into the target
    format; zeros, infinities and NaN are kept. *)
Definition SFconv (prec emax : Z) (x : spec_float) : spec_float :=
  match x with
  | S754_finite s m e => binary_round prec emax s m e
  | _ => x
  end.

Definition double_of_float : float -> double := SFconv F64.prec F64.emax.
Definition float_of_double : double -> float := SFconv F32.prec F32.emax.

(** The literal [d.ddddddf] with [n] = its digits read as an integer: the
    binary32 value nearest to [n / 10^6].  [n] and [10^6] are below [2^24],
    hence exact in binary32, and their quotient is correctly rounded. *)
Definition flit (n : Z) : float := F32.div (F32.of_int n) (F32.of_int 1000000).

(** [M_PI] of <math.h>, 3.14159265358979323846 as a double
    (0x400921FB54442D18). *)
Definition M_PI : double := S754_finite false 7074237752028440 (-51).

Definition is_nan (x : spec_float) : bool :=
  match x with S754_nan => true | _ => false end.

Definition is_finite (x : spec_float) : bool :=
  match x with S754_zero _ | S754_finite _ _ _ => true | _ => false end.

(** A finite [float] argument: a finite member of the binary32 format. *)
Definition finite32 (x : float) : Prop :=
  is_finite x = true /\ valid_binary F32.prec F32.emax x = true.

(** ** Faults, checked arrays and counted loops *)

(** The two ways a statement of these files can leave defined behaviour:
    an access outside an array and a read of an unassigned local.  What a
    compiled program does there is not fixed by the source. *)
Inductive error : Type := OutOfRange | Indeterminate.

Inductive result (A : Type) : Type :=
| Value (a : A)
| Fault (e : error).
Arguments Value {A} a.
Arguments Fault {A} e.

Definition bind {A B : Type} (r : result A) (k : A -> result B) : result B :=
  match r with
  | Value a => k a
  | Fault e => Fault e
  end.

Notation "x <- c1 ;; c2" := (bind c1 (fun x => c2))
  (at level 61, c1 at next level, right associativity).
Notation "' pat <- c1 ;; c2" := (bind c1 (fun x => match x with pat => c2 end))
  (at level 61, pat pattern, c1 at next level, right associativity).

Fixpoint update {A : Type} (n : nat) (x : A) (l : list A) : list A :=
  match l, n with
  | [], _ => []
  | _ :: t, O => x :: t
  | h :: t, S n' => h :: update n' x t
  end.

(** [a[i]] as an rvalue. *)
Definition load {A : Type} (a : list A) (i : Z) : result A :=
  if i <? 0 then Fault OutOfRange
  else match nth_error a (Z.to_nat i) with
       | Some x => Value x
       | None => Fault OutOfRange
       end.

(** [a[i] = x]. *)
Definition store {A : Type} (a : list A) (i : Z) (x : A) : result (list A) :=
  if (0 <=? i) && (i <? Z.of_nat (length a))
  then Value (update (Z.to_nat i) x a)
  else Fault OutOfRange.

(** A local array: a cell holds [None] until it is first assigned. *)
Definition cells := list (option float).

Definition fetch (a : cells) (i : Z) : result float :=
  c <- load a i ;;
  match c with
  | Some x => Value x
  | None => Fault Indeterminate
  end.

Definition assign (a : cells) (i : Z) (x : float) : result cells :=
  store a i (Some x).

(** [for (int i = lo; i < hi; i++) body], threading the state [s]. *)
Fixpoint for_loop {S : Type} (n : nat) (i : Z) (body : Z -> S -> result S) (s : S)
  : result S :=
  match n with
  | O => Value s
  | Datatypes.S n' => s' <- body i s ;; for_loop n' (i + 1) body s'
  end.

Definition for_range {S : Type} (lo hi : Z) (body : Z -> S -> result S) (s : S)
  : result S :=
  for_loop (Z.to_nat (hi - lo)) lo body s.

(** ** The class [TwoWheelBotDQN] *)

Definition INPUT_SIZE : Z := 2.
Definition HIDDEN_SIZE : Z := 64.
Definition OUTPUT_SIZE : Z := 3.

(** The four constant member arrays. *)
Record TwoWheelBotDQN : Type := {
  weightsInputHidden : list float;
  biasHidden : list float;
  weightsHiddenOutput : list float;
  biasOutput : list float
}.

(** The array types of the class: [float[INPUT_SIZE * HIDDEN_SIZE]],
    [float[HIDDEN_SIZE]], [float[HIDDEN_SIZE * OUTPUT_SIZE]],
    [float[OUTPUT_SIZE]]. *)
Definition well_formed (this : TwoWheelBotDQN) : Prop :=
  Z.of_nat (length (weightsInputHidden this)) = INPUT_SIZE * HIDDEN_SIZE /\
  Z.of_nat (length (biasHidden this)) = HIDDEN_SIZE /\
  Z.of_nat (length (weightsHiddenOutput this)) = HIDDEN_SIZE * OUTPUT_SIZE /\
  Z.of_nat (length (biasOutput this)) = OUTPUT_SIZE.

(** The locals of [getAction] at its [return]. *)
Record frame : Type := {
  input : cells;
  hidden : cells;
  output : cells;
  maxValue : float;
  bestAction : Z
}.

(** The part of the frame the output loop writes. *)
Record selection : Type := {
  sel_output : cells;
  sel_maxValue : float;
  sel_bestAction : Z
}.

Module Good.

Definition relu (x : float) : float :=
  if fgt x (F32.of_int 0) then x else F32.of_int 0.

Definition constrain (value min max : float) : float :=
  if flt value min then min
  else if fgt value max then max
  else value.

Definition getAction_frame (this : TwoWheelBotDQN) (angle angularVelocity : float)
  : result frame :=
  (* Normalize inputs *)
  let input : cells := repeat None (Z.to_nat INPUT_SIZE) in
  input <- assign input 0
    (constrain
       (float_of_double
          (F64.div (double_of_float angle) (F64.div M_PI (F64.of_int 3))))
       (float_of_double (SFopp (F64.of_int 1)))
       (float_of_double (F64.of_int 1))) ;;
  input <- assign input 1
    (constrain
       (float_of_double (F64.div (double_of_float angularVelocity) (F64.of_int 10)))
       (float_of_double (SFopp (F64.of_int 1)))
       (float_of_double (F64.of_int 1))) ;;
  (* Hidden layer computation *)
  let hidden : cells := repeat None (Z.to_nat HIDDEN_SIZE) in
  hidden <- for_range 0 HIDDEN_SIZE (fun h hidden =>
    b <- load (biasHidden this) h ;;
    hidden <- assign hidden h b ;;
    hidden <- for_range 0 INPUT_SIZE (fun i hidden =>
      acc <- fetch hidden h ;;
      x <- fetch input i ;;
      w <- load (weightsInputHidden this) (i * HIDDEN_SIZE + h) ;;
      assign hidden h (F32.add acc (F32.mul x w))) hidden ;;
    acc <- fetch hidden h ;;
    assign hidden h (relu acc)) hidden ;;
  (* Output layer computation *)
  let output : cells := repeat None (Z.to_nat OUTPUT_SIZE) in
  let maxValue : float := float_of_double (SFopp (F64.of_int 10000000000)) in
  let bestAction : Z := 0 in
  st <- for_range 0 OUTPUT_SIZE (fun o st =>
    b <- load (biasOutput this) o ;;
    output <- assign (sel_output st) o b ;;
    output <- for_range 0 HIDDEN_SIZE (fun h output =>
      acc <- fetch output o ;;
      x <- fetch hidden h ;;
      w <- load (weightsHiddenOutput this) (h * OUTPUT_SIZE + o) ;;
      assign output o (F32.add acc (F32.mul x w))) output ;;
    (* Track best action *)
    score <- fetch output o ;;
    if fgt score (sel_maxValue st)
    then Value {| sel_output := output; sel_maxValue := score; sel_bestAction := o |}
    else Value {| sel_output := output; sel_maxValue := sel_maxValue st;
                  sel_bestAction := sel_bestAction st |})
    {| sel_output := output; sel_maxValue := maxValue; sel_bestAction := bestAction |} ;;
  Value {| input := input; hidden := hidden; output := sel_output st;
           maxValue := sel_maxValue st; bestAction := sel_bestAction st |}.

Definition getAction (this : TwoWheelBotDQN) (angle angularVelocity : float)
  : result Z :=
  fr <- getAction_frame this angle angularVelocity ;;
  Value (bestAction fr).

Definition getMotorTorque (this : TwoWheelBotDQN) (action : Z) : result float :=
  let actions : list float :=
    [float_of_double (SFopp (F64.of_int 1));
     float_of_double (F64.of_int 0);
     float_of_double (F64.of_int 1)] in
  load actions action.

(** The object as its default member initializers build it
    (good_two_wheel_bot_dqn_2025-08-17T19-28-58.cpp). *)
Definition bot : TwoWheelBotDQN := {|
  weightsInputHidden := map flit
    [
     6295638; -1850533; -3660843; 602734; -6841746; -2096013; -2126892; 7628844;
     -1742573; 9687100; 4709247; -2089385; -2576713; 9120074; 502768; -1870195;
     -2594027; 7311043; -4326180; -3920493; 9728833; -2216990; 5342290; 8861135;
     -6688597; 4232511; 9996012; 4026363; 8000815; -5578982; 4699579; 2422302;
     -1920287; -3820326; -3596382; 5016973; 4649177; 8202576; -6308837; 4131910;
     9413630; -2304744; 8491673; 9952552; -2091427; 2351893; 629483; -9662912;
     -7130031; -4491361; -8846105; 9965243; -7087262; -2284093; -6909976; 935843;
     -9990727; 9979317; 7905297; 4997625; 9103757; 7880756; 5246580; 9993675;
     6975945; 6465416; -5528822; -1290155; 7186906; 6890776; 7693265; 9329733;
     6429513; 9168078; 7105161; 7607069; 3538911; 8852961; 2878730; 7340614;
     7452807; 4370234; -5238105; -5412622; 2631392; 6004950; 7786075; 3688759;
     -9904918; 7136580; 6699219; 7037698; 6476280; -143927; 6828653; 9500813;
     7363741; 9450343; -5505105; 6986243; 6728014; 8457144; -3787674; 8261312;
     9560166; 7475851; 3418196; 1169422; 6794282; 80153; -8089054; -9846926;
     3053711; 4115725; 6924769; 9964819; -3540367; 7449141; -9998987; 6612534;
     -9732748; 9999708; 8764077; 7846357; 9999992; -2676654; 7982852; 9998997 ];
  biasHidden := map flit
    [
     80536; -929635; -6501798; -179922; 9275137; -1476170; -1153123; -58938;
     -993763; -32095; -30411; -1143823; -1419015; 9995647; -1007954; -1195314;
     -748420; 9999460; -7017145; -6701336; -240355; -911372; 59972; 9997789;
     -547384; 449758; 9307693; -18306; 4539246; -5653224; -88031; 1631950;
     -1184551; 3198842; -6424275; 109031; -86791; 137293; 2834974; -1177511;
     -67350; -947959; -1161099; 9805529; -871277; 3015492; -2235251; -588661;
     22934; 3431534; 4629768; -208353; 60355; -951354; -280214; -3236523;
     -96716; 9865481; 6809405; 3647973; 5385517; 1412368; -39483; 9995531 ];
  weightsHiddenOutput := map flit
    [
     -9759555; -9704429; -3454707; -5564745; -3108928; -2520485; 1461152; -9709034;
     -5648414; -2212940; -139113; 5160562; 431317; -1438130; 400379; -6373718;
     -1190379; 254943; -7306643; -1843698; -1973046; -6472114; -9947268; -2031401;
     -5127713; -4352422; -3465006; -5539598; -1447761; 8454305; -9712676; -9834433;
     -7446741; -8441308; -1715975; -2384837; 655623; 1198598; 1451485; -651078;
     -6365025; 2984835; -620551; -3977003; -6567152; -8432240; -2002603; -1969182;
     -6569915; -2962635; -1466082; 597767; 1695903; 414740; 1141466; -10000000;
     -5519770; 1364865; -10000000; -5648401; 4466168; 4912095; -9997786; -4884659;
     -3638630; 2212678; -8079793; -9547993; -3167751; -408713; 6187855; 1462381;
     -9787572; -4645315; -10000000; -9581159; -9621643; -8123490; 19523; 537000;
     -1720936; -9698351; -9877735; -8298148; 6285109; 9436760; 9999233; 5953860;
     9845404; -2366477; -7273551; -9900617; -7681024; 9999985; -9046762; -800157;
     -6896054; -2194559; -3068935; 9999969; -6593205; -998238; 1531406; -7872448;
     -5429743; -8578238; -9719885; -5070611; -6413540; -9900917; -7672114; 3818908;
     1020840; 7636564; 74648; 1333026; 2131731; -6511018; -8141835; -2197324;
     -7497734; -8794179; -1682740; -8339524; -2055104; -1593541; 7187456; 7874950;
     5511042; 151787; 3062952; -624655; -5830593; -2893039; -2016152; -22415;
     -3163301; 3536042; -3898687; 5829141; -4216600; -9235849; -9890819; -10000000;
     -3540342; -7601387; -7294088; 3328122; 521785; 788391; 2388827; -1355578;
     9333737; 1931855; -4671470; -7351176; -9182127; -7005639; -6903049; -8422039;
     -2288596; -1656692; -9779089; 3331609; -10000000; -1587553; -3719940; -4566545;
     9999997; -2246124; -5716110; -1102775; 1669343; -782916; -757946; 2341926;
     133086; 440944; 584484; -1092948; 561345; 625357; -1059536; 8594075;
     5169158; -7616521; -1505104; 2752802; -1613890; -437487; 1791742; -1057920 ];
  biasOutput := map flit
    [
     9999990; 9864182; 8508238 ]
|}.

End Good.

Module Great.

Definition relu (x : float) : float :=
  if fgt x (F32.of_int 0) then x else F32.of_int 0.

Definition constrain (value min max : float) : float :=
  if flt value min then min
  else if fgt value max then max
  else value.

Definition getAction_frame (this : TwoWheelBotDQN) (angle angularVelocity : float)
  : result frame :=
  (* Normalize inputs *)
  let input : cells := repeat None (Z.to_nat INPUT_SIZE) in
  input <- assign input 0
    (constrain
       (float_of_double
          (F64.div (double_of_float angle) (F64.div M_PI (F64.of_int 3))))
       (float_of_double (SFopp (F64.of_int 1)))
       (float_of_double (F64.of_int 1))) ;;
  input <- assign input 1
    (constrain
       (float_of_double (F64.div (double_of_float angularVelocity) (F64.of_int 10)))
       (float_of_double (SFopp (F64.of_int 1)))
       (float_of_double (F64.of_int 1))) ;;
  (* Hidden layer computation *)
  let hidden : cells := repeat None (Z.to_nat HIDDEN_SIZE) in
  hidden <- for_range 0 HIDDEN_SIZE (fun h hidden =>
    b <- load (biasHidden this) h ;;
    hidden <- assign hidden h b ;;
    hidden <- for_range 0 INPUT_SIZE (fun i hidden =>
      acc <- fetch hidden h ;;
      x <- fetch input i ;;
      w <- load (weightsInputHidden this) (i * HIDDEN_SIZE + h) ;;
      assign hidden h (F32.add acc (F32.mul x w))) hidden ;;
    acc <- fetch hidden h ;;
    assign hidden h (relu acc)) hidden ;;
  (* Output layer computation *)
  let output : cells := repeat None (Z.to_nat OUTPUT_SIZE) in
  let maxValue : float := float_of_double (SFopp (F64.of_int 10000000000)) in
  let bestAction : Z := 0 in
  st <- for_range 0 OUTPUT_SIZE (fun o st =>
    b <- load (biasOutput this) o ;;
    output <- assign (sel_output st) o b ;;
    output <- for_range 0 HIDDEN_SIZE (fun h output =>
      acc <- fetch output o ;;
      x <- fetch hidden h ;;
      w <- load (weightsHiddenOutput this) (h * OUTPUT_SIZE + o) ;;
      assign output o (F32.add acc (F32.mul x w))) output ;;
    (* Track best action *)
    score <- fetch output o ;;
    if fgt score (sel_maxValue st)
    then Value {| sel_output := output; sel_maxValue := score; sel_bestAction := o |}
    else Value {| sel_output := output; sel_maxValue := sel_maxValue st;
                  sel_bestAction := sel_bestAction st |})
    {| sel_output := output; sel_maxValue := maxValue; sel_bestAction := bestAction |} ;;
  Value {| input := input; hidden := hidden; output := sel_output st;
           maxValue := sel_maxValue st; bestAction := sel_bestAction st |}.

Definition getAction (this : TwoWheelBotDQN) (angle angularVelocity : float)
  : result Z :=
  fr <- getAction_frame this angle angularVelocity ;;
  Value (bestAction fr).

Definition getMotorTorque (this : TwoWheelBotDQN) (action : Z) : result float :=
  let actions : list float :=
    [float_of_double (SFopp (F64.of_int 1));
     float_of_double (F64.of_int 0);
     float_of_double (F64.of_int 1)] in
  load actions action.

(** The object as its default member initializers build it
    (great_two_wheel_bot_dqn_2025-08-18T22-59-12.cpp). *)
Definition bot : TwoWheelBotDQN := {|
  weightsInputHidden := map flit
    [
     1562055; 514468; -473006; 2808634; 4760920; 2532120; 1124356; 1504863;
     1805886; 1634778; -2062981; 1178754; 428206; -563004; 1535193; -1068067;
     -1057839; -729536; 1484605; -998221; 2255957; 1229661; 1556052; 2357310;
     239409; 2696138; -1084991; -1703210; 1799259; -1283825; 3650103; 2727259;
     2212618; 2015595; 1633075; 605992; -630083; 2147849; -1120478; 2848284;
     -577283; 1611074; -200125; 1668548; -541821; -594331; -427008; 3236287;
     2886371; -133864; -2303359; -130546; 802876; 809989; 1634268; -1151100;
     -602146; 1177242; -145163; 1298190; -172146; 1874677; 1142781; 645349;
     140528; -1276738; -1181672; 2752764; 1922178; 1899242; -168059; 240058;
     -677331; 1194658; 2632901; 135653; 819208; 2169080; -1624542; 1515473;
     -1046074; -44351; -1354770; 1402764; 607658; 252495; 2683328; 3269516;
     -3574276; 1946949; -887349; 1200368; 64354; 2477621; 825214; 2146510;
     3446882; 808979; -1282878; 1172869; -586936; 1235414; 2051383; 3609596;
     1502400; 2384709; -1698860; 438668; 1100604; 1389171; -451361; -713746;
     2529861; 325006; -155409; -121435; -1491407; 2179578; -3194122; -1796545;
     -405066; 810857; 1003453; 1030951; -1696151; 2399278; 1698151; 668891 ];
  biasHidden := map flit
    [
     3335025; -430289; -829481; 479285; 64816; 2977705; 1537046; 4088611;
     4164180; 1869742; 4015369; 2218691; 2194860; 2188948; 4111330; 321192;
     -807275; 3492487; 5536273; 4350257; 2567554; 4641420; -505011; -237479;
     -644005; -473401; 1673581; 3670061; 3787272; 3417239; -2360; 3081504;
     6566; 2441579; 1465405; 3236509; -915540; 3159756; 1606339; 389322;
     4343277; 3001121; 33443; -334158; 1705243; -654399; -682102; 3266447;
     -136549; 2909122; 8018; 3442800; 268609; -1493734; 707482; -212758;
     -830591; -1481474; 1046644; -1493130; 3650714; 3451095; 1528494; 3035869 ];
  weightsHiddenOutput := map flit
    [
     465633; 1496157; 1884236; 811821; -174297; 373779; 1205584; -845979;
     903113; -759903; -1936574; -622517; -1886793; -1696501; -1095496; 289177;
     704771; 102861; 747737; 64139; 467976; -134089; 351984; 1813471;
     1214756; 826649; 1598918; 465928; 360751; 320001; 1831483; 201918;
     1510664; 32636; 1774777; -323431; 552404; 1960562; 599258; 194048;
     1617670; 401782; 1508444; 406192; 1549503; 600662; 4383265; 304499;
     113412; -845975; -1044519; 873461; 786546; 2071872; 3021733; 388386;
     741189; 1777898; 194675; 1673239; 459059; 441026; -22435; 1213874;
     4930711; -1773572; -500528; -1981457; -266859; -363574; -2895611; -824536;
     38620; -1091421; -272516; -429502; -1647473; -646360; 1774762; 2444822;
     1759911; 1570304; -119839; 1728926; 1200217; 331585; 1062623; 1011681;
     -404660; 981923; -1113478; -1766857; -1091031; 435578; 876305; 34029;
     -968539; -1134618; -740847; 501672; 158326; 397873; -93179; 574975;
     1285098; 371434; 393031; 1448127; 1017989; -973421; 1042020; 613371;
     239669; 415911; 463373; 257178; 960232; -1034883; -1863229; -870047;
     1285384; 346159; 1616449; 316559; -157922; -11393; -260219; -353031;
     -1292353; -122499; -1896060; -447871; 605159; -138838; 1106491; 894468;
     -758770; 349735; 672770; -506824; 83725; 251856; 1499237; 1179429;
     -816366; -1872082; -942827; 719754; 1530704; 1105589; -953745; -607486;
     -1675260; -453360; 1676731; -108341; 332944; -559575; 570322; 1389;
     -556805; 39936; 1067614; 327634; 880732; -78886; -692667; -1079174;
     1187045; -1229772; 969661; 181852; -418336; 92987; 240172; 3889463;
     362683; -327369; -1417740; 61413; 1209702; 1151713; 1747081; 353684;
     -11685; -99002; 96467; 1298059; 427827; 884686; 919311; 1119833 ];
  biasOutput := map flit
    [
     608543; 4684580; 430603 ]
|}.

End Great.

Module Okayish.

Definition relu (x : float) : float :=
  if fgt x (F32.of_int 0) then x else F32.of_int 0.

Definition constrain (value min max : float) : float :=
  if flt value min then min
  else if fgt value max then max
  else value.

Definition getAction_frame (this : TwoWheelBotDQN) (angle angularVelocity : float)
  : result frame :=
  (* Normalize inputs *)
  let input : cells := repeat None (Z.to_nat INPUT_SIZE) in
  input <- assign input 0
    (constrain
       (float_of_double
          (F64.div (double_of_float angle) (F64.div M_PI (F64.of_int 3))))
       (float_of_double (SFopp (F64.of_int 1)))
       (float_of_double (F64.of_int 1))) ;;
  input <- assign input 1
    (constrain
       (float_of_double (F64.div (double_of_float angularVelocity) (F64.of_int 10)))
       (float_of_double (SFopp (F64.of_int 1)))
       (float_of_double (F64.of_int 1))) ;;
  (* Hidden layer computation *)
  let hidden : cells := repeat None (Z.to_nat HIDDEN_SIZE) in
  hidden <- for_range 0 HIDDEN_SIZE (fun h hidden =>
    b <- load (biasHidden this) h ;;
    hidden <- assign hidden h b ;;
    hidden <- for_range 0 INPUT_SIZE (fun i hidden =>
      acc <- fetch hidden h ;;
      x <- fetch input i ;;
      w <- load (weightsInputHidden this) (i * HIDDEN_SIZE + h) ;;
      assign hidden h (F32.add acc (F32.mul x w))) hidden ;;
    acc <- fetch hidden h ;;
    assign hidden h (relu acc)) hidden ;;
  (* Output layer computation *)
  let output : cells := repeat None (Z.to_nat OUTPUT_SIZE) in
  let maxValue : float := float_of_double (SFopp (F64.of_int 10000000000)) in
  let bestAction : Z := 0 in
  st <- for_range 0 OUTPUT_SIZE (fun o st =>
    b <- load (biasOutput this) o ;;
    output <- assign (sel_output st) o b ;;
    output <- for_range 0 HIDDEN_SIZE (fun h output =>
      acc <- fetch output o ;;
      x <- fetch hidden h ;;
      w <- load (weightsHiddenOutput this) (h * OUTPUT_SIZE + o) ;;
      assign output o (F32.add acc (F32.mul x w))) output ;;
    (* Track best action *)
    score <- fetch output o ;;
    if fgt score (sel_maxValue st)
    then Value {| sel_output := output; sel_maxValue := score; sel_bestAction := o |}
    else Value {| sel_output := output; sel_maxValue := sel_maxValue st;
                  sel_bestAction := sel_bestAction st |})
    {| sel_output := output; sel_maxValue := maxValue; sel_bestAction := bestAction |} ;;
  Value {| input := input; hidden := hidden; output := sel_output st;
           maxValue := sel_maxValue st; bestAction := sel_bestAction st |}.

Definition getAction (this : TwoWheelBotDQN) (angle angularVelocity : float)
  : result Z :=
  fr <- getAction_frame this angle angularVelocity ;;
  Value (bestAction fr).

Definition getMotorTorque (this : TwoWheelBotDQN) (action : Z) : result float :=
  let actions : list float :=
    [float_of_double (SFopp (F64.of_int 1));
     float_of_double (F64.of_int 0);
     float_of_double (F64.of_int 1)] in
  load actions action.

(** The object as its default member initializers build it
    (okayish_two_wheel_bot_dqn_2025-08-17T17-26-44.cpp). *)
Definition bot : TwoWheelBotDQN := {|
  weightsInputHidden := map flit
    [
     7023232; -1946496; -3660843; 602734; -5156502; -2125623; -2262152; 3537727;
     -1847513; 5594237; 5157835; -2229493; -2576713; -4074543; 3075437; 1582539;
     -2657667; 6860506; -4326180; -3920493; 1961780; -2236488; 8866314; 8776635;
     -6881963; 7039897; 6978577; 3682001; 8947897; -5578982; 5578310; -396936;
     1448075; 2259323; -3596382; 5706481; 3215534; 9003716; 2990098; 5682712;
     5422194; -2412235; 8792321; 4318284; -2177967; 8304332; 656789; -5843938;
     -6586642; -4976937; 9008966; 5064896; 1330268; -2393737; -3755072; 5433015;
     -7779222; 5952105; 6251626; 8590270; 1916585; 3361299; 4988776; 8524696;
     7040170; 6249614; -5528822; -1290155; -2341282; 6861738; 7467060; 9133445;
     6195847; -543552; 1495834; 7389530; 3538911; -2879457; 5602779; 9999001;
     7287007; 7165514; -5238105; -5412622; 6280796; 5985641; 9998694; 6671149;
     -9272775; 9999001; 6411644; 9999001; 2362712; -143927; 9987533; -1337093;
     9999001; -3802574; -5505105; 5309973; 9999001; 1243797; 625026; 9999001;
     5444474; 7289879; 6816528; 4470291; 6592383; 702628; -7943575; -8206820;
     -9986835; -3605889; 986598; 9999001; -6502712; 7262049; -9582799; 9456708;
     -8293652; 6828340; 6330016; 5177098; 4480667; 6679293; 6803697; 5973219 ];
  biasHidden := map flit
    [
     -4608638; -1025601; -6501798; -179922; 9999697; -1505780; -1288382; -63906;
     -1098465; -5406548; -5626944; -1283827; -1419015; 7609716; -19569; -267095;
     -812000; 8893893; -7017145; -6701336; -298858; -930873; -756151; 9998854;
     -740462; -782925; 9059819; -454074; -2636194; -5653224; 432449; -904040;
     -257348; -390401; -6424275; -5094511; -413040; -2548503; 9998443; -652023;
     -6177557; -1055423; -1111208; 7945953; -957842; 9960999; -2262724; -4519;
     -576031; 9999621; -2522706; -591737; -43445; -1060988; -601453; -395452;
     41157; 9997232; 8007367; 8574869; 8618369; -475475; -3885806; 9999194 ];
  weightsHiddenOutput := map flit
    [
     -5587954; -1338409; 7894243; -4962707; -3182529; -2710292; 1461152; -9709034;
     -5648414; -2212940; -139113; 5160562; -84272; 671394; 2650271; -6373718;
     -1190761; 246599; -6727904; -1919167; -2161101; -9998485; -9104272; -6751316;
     -4544266; -4427130; -3654868; -2031543; -2058283; 9277313; -4725622; -2927679;
     2245592; -7851984; -1791459; -2572003; 655623; 1198598; 1451485; 1544230;
     -1286419; 873134; -4064549; -5273642; -7706302; -9997818; -3833695; -5459013;
     -5847614; -3030030; -1662569; 1970976; 252092; -554032; 1141466; -10000000;
     -5519770; 1364865; -10000000; -5648401; 1014188; 426735; -8632522; -4884659;
     -3638630; 2209774; -9998488; -9236064; -818472; 186232; 6200472; 1062291;
     -9567947; -7802730; -9969671; -9998501; -8178892; -2274161; 1750523; 317791;
     -568474; -9998501; -9998934; -8020748; 9990403; 7111800; 5202513; 5953860;
     9845404; -2366477; -5184835; -5301702; 9998660; 9742731; -2212579; 9827650;
     -9712143; -4027054; -6541830; 7397160; 8965155; 9583761; 1531406; -7872448;
     -5429743; -7620375; -6061645; 1329547; -9998339; -9999308; -8597130; 9978527;
     7311152; 6552685; -3781931; 233861; 1429024; -7103989; -9731123; -2981201;
     -6539904; -878213; 7422890; -7699227; -2127329; -1782914; 8523526; 7226751;
     -5621420; 2145602; 17955; -266393; -5200203; -2964766; -2204410; 989793;
     -1440522; 3423784; -3725695; 5854098; -4168884; -5795030; -7439397; -5605638;
     9576832; -2339823; -5102937; -833721; 1272744; 2634202; 9973733; 8245879;
     5849717; -5402317; -6336952; -4632036; -7499793; -7818459; -8956123; -7782010;
     -2361067; -1846055; -9937052; 4737638; -8084605; -3914376; -5222555; -6069197;
     9083991; 9500952; 9353291; 1528680; 1264627; -1153892; 1587600; 252650;
     -293399; 698731; -1105670; 858467; 2815850; -328581; -599793; 7979664;
     2225731; -10000000; -752829; 822771; -6823290; 721177; 2456748; -943365 ];
  biasOutput := map flit
    [
     9509856; 9999767; 9999404 ]
|}.

End Okayish.

(** ** Specification-side definitions *)

Definition shr_inv (X : Prop) (M k : Z) (r : shr_record) : Prop :=
  shr_m r = M / 2 ^ k /\
  (X -> shr_r r = true \/ shr_s r = true -> M mod 2 ^ k <> 0).

Definition bounded_by (N : Z) (x : spec_float) : bool :=
  match x with
  | S754_zero _ => true
  | S754_finite _ m e => (e <=? 0) && (Zpos m <=? N * 2 ^ (- e))
  | _ => false
  end.

Definition sign_of (x : spec_float) : bool :=
  match x with
  | S754_zero s | S754_infinity s | S754_finite s _ _ => s
  | S754_nan => false
  end.

(** [x] is an infinity or a canonical finite number of magnitude at least 1. *)
Definition at_least_one (prec emax : Z) (x : spec_float) : bool :=
  match x with
  | S754_infinity _ => true
  | S754_finite _ m e => canonical_mantissa prec emax m e && (1 - prec <=? e)
  | _ => false
  end.

Definition one32 : float := float_of_double (F64.of_int 1).
Definition minus_one32 : float := float_of_double (SFopp (F64.of_int 1)).

(** The place of a number in the order of the comparison operators. *)
Definition rank (x : spec_float) : Z * Z * Z :=
  match x with
  | S754_zero _ | S754_nan => (0, 0, 0)
  | S754_infinity false => (2, 0, 0)
  | S754_infinity true => (-2, 0, 0)
  | S754_finite false m e => (1, e, Zpos m)
  | S754_finite true m e => (-1, - e, - Zpos m)
  end.

Definition lex_lt (a b : Z * Z * Z) : Prop :=
  let '(a1, a2, a3) := a in
  let '(b1, b2, b3) := b in
  a1 < b1 \/ (a1 = b1 /\ (a2 < b2 \/ (a2 = b2 /\ a3 < b3))).

(** The running maximum of [getAction] over the scores from index [o] on. *)
Fixpoint select_from (scores : list float) (o : Z) (mv : float) (best : Z) : float * Z :=
  match scores with
  | [] => (mv, best)
  | s :: rest =>
      if fgt s mv then select_from rest (o + 1) s o
      else select_from rest (o + 1) mv best
  end.

Definition sentinel : float := float_of_double (SFopp (F64.of_int 10000000000)).

(** [i] is the lowest index of a maximal score. *)
Definition first_argmax (scores : list float) (i : nat) : Prop :=
  (i < length scores)%nat /\
  (forall j, (j < length scores)%nat ->
             fle (nth j scores S754_nan) (nth i scores S754_nan) = true) /\
  (forall j, (j < i)%nat ->
             flt (nth j scores S754_nan) (nth i scores S754_nan) = true).

(** [std::max]. *)
Definition fmax (a b : float) : float := if flt a b then b else a.

Definition norm_angle (angle : float) : float :=
  Good.constrain
    (float_of_double (F64.div (double_of_float angle) (F64.div M_PI (F64.of_int 3))))
    minus_one32 one32.

Definition norm_velocity (angularVelocity : float) : float :=
  Good.constrain
    (float_of_double (F64.div (double_of_float angularVelocity) (F64.of_int 10)))
    minus_one32 one32.

(** [W_ih[i][h]], [W_ho[k][o]]: the matrices are stored row-major. *)
Definition W_ih (this : TwoWheelBotDQN) (i h : nat) : float :=
  nth (i * 64 + h) (weightsInputHidden this) S754_nan.

Definition W_ho (this : TwoWheelBotDQN) (k o : nat) : float :=
  nth (k * 3 + o) (weightsHiddenOutput this) S754_nan.

(** [max(0, biasHidden[h] + input[0]*W_ih[0][h] + input[1]*W_ih[1][h])],
    summed bias first, then index 0, then index 1. *)
Definition hidden_unit (this : TwoWheelBotDQN) (x0 x1 : float) (h : nat) : float :=
  fmax (F32.of_int 0)
    (F32.add
       (F32.add (nth h (biasHidden this) S754_nan) (F32.mul x0 (W_ih this 0 h)))
       (F32.mul x1 (W_ih this 1 h))).

(** [biasOutput[o] + sum for k = 0..63 of hidden[k]*W_ho[k][o]], summed in
    index order, with no activation. *)
Definition output_score (this : TwoWheelBotDQN) (hid : list float) (o : nat) : float :=
  fold_left (fun acc k => F32.add acc (F32.mul (nth k hid S754_nan) (W_ho this k o)))
    (seq 0 64) (nth o (biasOutput this) S754_nan).

Definition hidden_layer (this : TwoWheelBotDQN) (x0 x1 : float) : list float :=
  map (hidden_unit this x0 x1) (seq 0 64).

Definition output_layer (this : TwoWheelBotDQN) (hid : list float) : list float :=
  map (output_score this hid) (seq 0 3).

(** [M_PI / 3] and [10.0], the two divisors of the normalization. *)
Definition pi_3 : double := F64.div M_PI (F64.of_int 3).
Definition ten : double := F64.of_int 10.

(** Every weight and bias is finite with magnitude at most [N]. *)
Definition tensors_within (N : Z) (this : TwoWheelBotDQN) : bool :=
  forallb (bounded_by N) (weightsInputHidden this) &&
  forallb (bounded_by N) (biasHidden this) &&
  forallb (bounded_by N) (weightsHiddenOutput this) &&
  forallb (bounded_by N) (biasOutput this).

Definition zero32 : float := F32.of_int 0.

(** A finite number other than zero. *)
Definition is_nonzero_finite (x : spec_float) : bool :=
  match x with S754_finite _ _ _ => true | _ => false end.

(** An object whose weights are all zero, so that its three scores are its
    three output biases: the synthetic parameters of a hand-computed test. *)
Definition biased_bot (b0 b1 b2 : float) : TwoWheelBotDQN := {|
  weightsInputHidden := repeat (F32.of_int 0) 128;
  biasHidden := repeat (F32.of_int 0) 64;
  weightsHiddenOutput := repeat (F32.of_int 0) 192;
  biasOutput := [b0; b1; b2]
|}.

(** ** A call of [getAction] as a transformer of memory *)

(** The arrays a statement can name: the four member arrays of the object
    and the three local arrays of [getAction]. *)
Inductive array_id : Type :=
| WeightsInputHidden | BiasHidden | WeightsHiddenOutput | BiasOutput
| Input | Hidden | Output.

(** Memory at a call: the object and the storage of the locals.  A local
    holds whatever its storage held before the call until it is
    assigned. *)
Record memory : Type := {
  m_this : TwoWheelBotDQN;
  m_input : list float;
  m_hidden : list float;
  m_output : list float;
  m_maxValue : float;
  m_bestAction : Z
}.

Definition get_array (m : memory) (a : array_id) : list float :=
  match a with
  | WeightsInputHidden => weightsInputHidden (m_this m)
  | BiasHidden => biasHidden (m_this m)
  | WeightsHiddenOutput => weightsHiddenOutput (m_this m)
  | BiasOutput => biasOutput (m_this m)
  | Input => m_input m
  | Hidden => m_hidden m
  | Output => m_output m
  end.

Definition set_this (m : memory) (this : TwoWheelBotDQN) : memory :=
  {| m_this := this; m_input := m_input m; m_hidden := m_hidden m;
     m_output := m_output m; m_maxValue := m_maxValue m;
     m_bestAction := m_bestAction m |}.

Definition set_array (m : memory) (a : array_id) (l : list float) : memory :=
  match a with
  | WeightsInputHidden =>
      set_this m {| weightsInputHidden := l; biasHidden := biasHidden (m_this m);
                    weightsHiddenOutput := weightsHiddenOutput (m_this m);
                    biasOutput := biasOutput (m_this m) |}
  | BiasHidden =>
      set_this m {| weightsInputHidden := weightsInputHidden (m_this m); biasHidden := l;
                    weightsHiddenOutput := weightsHiddenOutput (m_this m);
                    biasOutput := biasOutput (m_this m) |}
  | WeightsHiddenOutput =>
      set_this m {| weightsInputHidden := weightsInputHidden (m_this m);
                    biasHidden := biasHidden (m_this m); weightsHiddenOutput := l;
                    biasOutput := biasOutput (m_this m) |}
  | BiasOutput =>
      set_this m {| weightsInputHidden := weightsInputHidden (m_this m);
                    biasHidden := biasHidden (m_this m);
                    weightsHiddenOutput := weightsHiddenOutput (m_this m);
                    biasOutput := l |}
  | Input =>
      {| m_this := m_this m; m_input := l; m_hidden := m_hidden m;
         m_output := m_output m; m_maxValue := m_maxValue m;
         m_bestAction := m_bestAction m |}
  | Hidden =>
      {| m_this := m_this m; m_input := m_input m; m_hidden := l;
         m_output := m_output m; m_maxValue := m_maxValue m;
         m_bestAction := m_bestAction m |}
  | Output =>
      {| m_this := m_this m; m_input := m_input m; m_hidden := m_hidden m;
         m_output := l; m_maxValue := m_maxValue m;
         m_bestAction := m_bestAction m |}
  end.

(** A statement: from the memory before it to a value and the memory
    after it, or a fault. *)
Definition st (A : Type) : Type := memory -> result (A * memory).

Definition st_ret {A : Type} (a : A) : st A := fun m => Value (a, m).

Definition st_bind {A B : Type} (c : st A) (k : A -> st B) : st B :=
  fun m => match c m with
           | Value (a, m') => k a m'
           | Fault e => Fault e
           end.

Notation "x <~ c1 ;; c2" := (st_bind c1 (fun x => c2))
  (at level 61, c1 at next level, right associativity).
Notation "c1 ;;; c2" := (st_bind c1 (fun _ => c2))
  (at level 61, right associativity).

(** [a[i]] as an rvalue and [a[i] = x], on the array [a] of the memory. *)
Definition rd (a : array_id) (i : Z) : st float :=
  fun m => match load (get_array m a) i with
           | Value x => Value (x, m)
           | Fault e => Fault e
           end.

Definition wr (a : array_id) (i : Z) (x : float) : st unit :=
  fun m => match store (get_array m a) i x with
           | Value l => Value (tt, set_array m a l)
           | Fault e => Fault e
           end.

Definition get_maxValue : st float := fun m => Value (m_maxValue m, m).

Definition set_maxValue (x : float) : st unit :=
  fun m => Value (tt, {| m_this := m_this m; m_input := m_input m; m_hidden := m_hidden m;
                         m_output := m_output m; m_maxValue := x;
                         m_bestAction := m_bestAction m |}).

Definition get_bestAction : st Z := fun m => Value (m_bestAction m, m).

Definition set_bestAction (i : Z) : st unit :=
  fun m => Value (tt, {| m_this := m_this m; m_input := m_input m; m_hidden := m_hidden m;
                         m_output := m_output m; m_maxValue := m_maxValue m;
                         m_bestAction := i |}).

Fixpoint st_for (n : nat) (i : Z) (body : Z -> st unit) : st unit :=
  match n with
  | O => st_ret tt
  | S n' => body i ;;; st_for n' (i + 1) body
  end.

Definition st_for_range (lo hi : Z) (body : Z -> st unit) : st unit :=
  st_for (Z.to_nat (hi - lo)) lo body.

(** [getAction] of the good file, statement by statement, on a memory
    in which the members are as writable as the locals. *)
Definition getAction_call (angle angularVelocity : float) : st Z :=
  (* Normalize inputs *)
  wr Input 0
    (Good.constrain
       (float_of_double
          (F64.div (double_of_float angle) (F64.div M_PI (F64.of_int 3))))
       (float_of_double (SFopp (F64.of_int 1)))
       (float_of_double (F64.of_int 1))) ;;;
  wr Input 1
    (Good.constrain
       (float_of_double (F64.div (double_of_float angularVelocity) (F64.of_int 10)))
       (float_of_double (SFopp (F64.of_int 1)))
       (float_of_double (F64.of_int 1))) ;;;
  (* Hidden layer computation *)
  st_for_range 0 HIDDEN_SIZE (fun h =>
    b <~ rd BiasHidden h ;;
    wr Hidden h b ;;;
    st_for_range 0 INPUT_SIZE (fun i =>
      acc <~ rd Hidden h ;;
      x <~ rd Input i ;;
      w <~ rd WeightsInputHidden (i * HIDDEN_SIZE + h) ;;
      wr Hidden h (F32.add acc (F32.mul x w))) ;;;
    acc <~ rd Hidden h ;;
    wr Hidden h (Good.relu acc)) ;;;
  (* Output layer computation *)
  set_maxValue (float_of_double (SFopp (F64.of_int 10000000000))) ;;;
  set_bestAction 0 ;;;
  st_for_range 0 OUTPUT_SIZE (fun o =>
    b <~ rd BiasOutput o ;;
    wr Output o b ;;;
    st_for_range 0 HIDDEN_SIZE (fun h =>
      acc <~ rd Output o ;;
      x <~ rd Hidden h ;;
      w <~ rd WeightsHiddenOutput (h * OUTPUT_SIZE + o) ;;
      wr Output o (F32.add acc (F32.mul x w))) ;;;
    (* Track best action *)
    score <~ rd Output o ;;
    mv <~ get_maxValue ;;
    if fgt score mv
    then set_maxValue score ;;; set_bestAction o
    else st_ret tt) ;;;
  get_bestAction.

(** The object has the declared array sizes and so have the three local
    arrays, [float input[2]], [float hidden[64]], [float output[3]]. *)
Definition memory_well_formed (m : memory) : Prop :=
  well_formed (m_this m) /\
  Z.of_nat (length (m_input m)) = INPUT_SIZE /\
  Z.of_nat (length (m_hidden m)) = HIDDEN_SIZE /\
  Z.of_nat (length (m_output m)) = OUTPUT_SIZE.

(** A memory holding the object [this] and the same stale value in every
    local. *)
Definition stale_memory (this : TwoWheelBotDQN) (x : float) (i : Z) : memory :=
  {| m_this := this; m_input := repeat x 2; m_hidden := repeat x 64;
     m_output := repeat x 3; m_maxValue := x; m_bestAction := i |}.

(** What a call returns and leaves in memory, in closed form. *)
Definition call_result (this : TwoWheelBotDQN) (angle angularVelocity : float)
  : Z * memory :=
  let x0 := norm_angle angle in
  let x1 := norm_velocity angularVelocity in
  let hid := hidden_layer this x0 x1 in
  let scores := output_layer this hid in
  (snd (select_from scores 0 sentinel 0),
   {| m_this := this; m_input := [x0; x1]; m_hidden := hid; m_output := scores;
      m_maxValue := fst (select_from scores 0 sentinel 0);
      m_bestAction := snd (select_from scores 0 sentinel 0) |}).

(** ** Powers of two and digit counts *)

(** [M_PI] is the double nearest to the decimal constant of <math.h>: it
    is within half a unit in the last place of 3.14159265358979323846. *)
Lemma M_PI_nearest :
  2 * Z.abs (7074237752028440 * 10 ^ 20 - 314159265358979323846 * 2 ^ 51) <= 10 ^ 20 /\
  M_PI = S754_finite false 7074237752028440 (-51).
Proof. split; [vm_compute; discriminate | reflexivity]. Qed.

Lemma pow2_pos (k : Z) : 0 <= k -> 0 < 2 ^ k.
Proof. intros; apply Z.pow_pos_nonneg; lia. Qed.

Lemma pow2_succ (k : Z) : 0 <= k -> 2 ^ (k + 1) = 2 * 2 ^ k.
Proof. intros; rewrite Z.pow_add_r by lia; rewrite Z.pow_1_r; lia. Qed.

Lemma pow2_split (a b : Z) : 0 <= a -> 0 <= b -> 2 ^ (a + b) = 2 ^ a * 2 ^ b.
Proof. intros; apply Z.pow_add_r; lia. Qed.

Lemma pow2_le (a b : Z) : 0 <= a <= b -> 2 ^ a <= 2 ^ b.
Proof. intros; apply Z.pow_le_mono_r; lia. Qed.

Lemma pow2_lt (a b : Z) : 0 <= a < b -> 2 ^ a < 2 ^ b.
Proof. intros; apply Z.pow_lt_mono_r; lia. Qed.

Lemma pow2_lt_inv (a b : Z) : 0 <= b -> 2 ^ a < 2 ^ b -> a < b.
Proof. intros Hb H. apply (Z.pow_lt_mono_r_iff 2 a b); lia. Qed.

(** [digits2_pos m] is the bit length of [m]. *)
Lemma digits2_pos_spec (m : positive) :
  2 ^ (Zpos (digits2_pos m) - 1) <= Zpos m < 2 ^ Zpos (digits2_pos m).
Proof.
  induction m as [m IH | m IH |]; cbn [digits2_pos].
  - rewrite Pos2Z.inj_succ.
    replace (Z.succ (Zpos (digits2_pos m)) - 1) with ((Zpos (digits2_pos m) - 1) + 1) by lia.
    unfold Z.succ. rewrite !pow2_succ by lia. lia.
  - rewrite Pos2Z.inj_succ.
    replace (Z.succ (Zpos (digits2_pos m)) - 1) with ((Zpos (digits2_pos m) - 1) + 1) by lia.
    unfold Z.succ. rewrite !pow2_succ by lia. lia.
  - cbn. lia.
Qed.

Lemma Zdigits2_nonneg (m : Z) : 0 <= Zdigits2 m.
Proof. destruct m; cbn; lia. Qed.

Lemma Zdigits2_spec (m : Z) :
  0 < m -> 2 ^ (Zdigits2 m - 1) <= m < 2 ^ Zdigits2 m /\ 0 < Zdigits2 m.
Proof.
  destruct m as [|p|p]; try lia. intros _. cbn [Zdigits2].
  split; [apply digits2_pos_spec | lia].
Qed.

Lemma Zdigits2_le (m d : Z) : 0 < m -> 0 <= d -> m < 2 ^ d -> Zdigits2 m <= d.
Proof.
  intros Hm Hd H. destruct (Zdigits2_spec m Hm) as [[Hlo _] Hp].
  assert (2 ^ (Zdigits2 m - 1) < 2 ^ d) by lia.
  apply pow2_lt_inv in H0; lia.
Qed.

Lemma Zdigits2_ge (m d : Z) : 0 < m -> 2 ^ (d - 1) <= m -> d <= Zdigits2 m.
Proof.
  intros Hm H. destruct (Zdigits2_spec m Hm) as [[_ Hhi] Hp].
  destruct (Z_lt_le_dec (d - 1) 0); [lia|].
  assert (2 ^ (d - 1) < 2 ^ Zdigits2 m) by lia.
  apply pow2_lt_inv in H0; lia.
Qed.

Lemma Zdigits2_mono (a b : Z) : 0 < a <= b -> Zdigits2 a <= Zdigits2 b.
Proof.
  intros H. destruct (Zdigits2_spec a) as [[Hlo _] Hp]; [lia|].
  apply Zdigits2_ge; lia.
Qed.

(** Dropping [n] low bits drops [n] digits. *)
Lemma Zdigits2_div (m n : Z) :
  0 <= n -> 0 < m / 2 ^ n -> Zdigits2 (m / 2 ^ n) = Zdigits2 m - n.
Proof.
  intros Hn Hq.
  assert (H2n := pow2_pos n Hn).
  assert (Hm : 0 < m).
  { destruct (Z_lt_le_dec 0 m); auto.
    assert (m / 2 ^ n <= 0) by (apply Z.div_le_upper_bound; lia). lia. }
  destruct (Zdigits2_spec m Hm) as [[Hlo Hhi] Hp].
  assert (Hge : 2 ^ n <= m).
  { destruct (Z_lt_le_dec m (2 ^ n)); auto. rewrite Z.div_small in Hq; lia. }
  assert (Hdn : n < Zdigits2 m).
  { apply pow2_lt_inv; lia. }
  apply Z.le_antisymm.
  - apply Zdigits2_le; try lia.
    apply Z.div_lt_upper_bound; try lia.
    rewrite <- pow2_split by lia. replace (n + (Zdigits2 m - n)) with (Zdigits2 m) by lia. lia.
  - apply Zdigits2_ge; try lia.
    apply Z.div_le_lower_bound; try lia.
    rewrite <- pow2_split by lia. replace (n + (Zdigits2 m - n - 1)) with (Zdigits2 m - 1) by lia. lia.
Qed.

(** ** Rounding to nearest in [SpecFloat] *)

Lemma shr_1_spec (r : shr_record) :
  0 <= shr_m r ->
  shr_m (shr_1 r) = shr_m r / 2 /\
  shr_r (shr_1 r) = Z.odd (shr_m r) /\
  shr_s (shr_1 r) = shr_r r || shr_s r.
Proof.
  destruct r as [m r s]; cbn [shr_m shr_r shr_s]. intros Hm.
  destruct m as [|[p|p|]|p]; try lia; cbn [shr_1 shr_m shr_r shr_s Z.odd];
    (split; [|split; reflexivity]).
  - reflexivity.
  - rewrite Pos2Z.inj_xI. apply (Z.div_unique _ 2 _ 1); lia.
  - rewrite Pos2Z.inj_xO. apply (Z.div_unique _ 2 _ 0); lia.
  - reflexivity.
Qed.

Lemma shr_inv_step (X : Prop) (M k : Z) (r : shr_record) :
  0 <= M -> 0 <= k -> shr_inv X M k r -> shr_inv X M (k + 1) (shr_1 r).
Proof.
  intros HM Hk [Hv Hf].
  assert (H2 := pow2_pos k Hk).
  assert (Hm : 0 <= shr_m r) by (rewrite Hv; apply Z.div_pos; lia).
  destruct (shr_1_spec r Hm) as (Em & Er & Es).
  assert (Hmod := Z.mod_pos_bound M (2 ^ k) H2).
  assert (Hdm := Z.div_mod M (2 ^ k) ltac:(lia)).
  split.
  - rewrite Em, Hv, pow2_succ by lia. rewrite Z.div_div by lia. f_equal; lia.
  - intros HX Hfl E0. rewrite pow2_succ in E0 by lia.
    apply Z.mod_divide in E0; [|lia]. destruct E0 as [q Eq].
    rewrite Er, Es in Hfl. destruct Hfl as [Hodd | Hold].
    + rewrite Hv in Hodd.
      replace M with (2 * q * 2 ^ k) in Hodd by lia.
      rewrite Z.div_mul in Hodd by lia.
      rewrite Z.odd_mul in Hodd. discriminate.
    + apply orb_true_iff in Hold. apply (Hf HX Hold).
      apply Z.mod_divide; [lia|]. exists (q * 2). lia.
Qed.

Lemma shr_inv_iter (X : Prop) (M : Z) (p : positive) :
  0 <= M ->
  forall (k : Z) (r : shr_record),
    0 <= k -> shr_inv X M k r -> shr_inv X M (k + Zpos p) (iter_pos shr_1 p r).
Proof.
  intros HM. induction p as [p IH | p IH |]; intros k r Hk Hr; cbn [iter_pos].
  - replace (k + Zpos p~1) with (((k + 1) + Zpos p) + Zpos p) by lia.
    apply IH; [lia|]. apply IH; [lia|]. now apply shr_inv_step.
  - replace (k + Zpos p~0) with ((k + Zpos p) + Zpos p) by lia.
    apply IH; [lia|]. now apply IH.
  - now apply shr_inv_step.
Qed.

Lemma shr_record_of_loc_m (m : Z) (l : location) : shr_m (shr_record_of_loc m l) = m.
Proof. destruct l as [|[| |]]; reflexivity. Qed.

Lemma iter_xO_spec (m d : positive) : Zpos (Pos.iter xO m d) = Zpos m * 2 ^ Zpos d.
Proof.
  induction d as [|d IH] using Pos.peano_ind.
  - cbn [Pos.iter]. rewrite Pos2Z.inj_xO. change (2 ^ 1) with 2. lia.
  - rewrite Pos.iter_succ, Pos2Z.inj_xO, IH, Pos2Z.inj_succ.
    unfold Z.succ. rewrite pow2_succ by lia. lia.
Qed.

Lemma shl_align_spec (mx : positive) (ex ex' : Z) :
  let e := Z.min ex ex' in
  snd (shl_align mx ex ex') = e /\
  Zpos (fst (shl_align mx ex ex')) = Zpos mx * 2 ^ (ex - e).
Proof.
  unfold shl_align. destruct (ex' - ex) as [|d|d] eqn:E; cbn [fst snd].
  - replace (ex - Z.min ex ex') with 0 by lia. split; lia.
  - replace (ex - Z.min ex ex') with 0 by lia. split; lia.
  - rewrite iter_xO_spec. replace (ex - Z.min ex ex') with (Zpos d) by lia. split; lia.
Qed.

Lemma Zdigits2_mul_pow2 (m k : Z) : 0 < m -> 0 <= k -> Zdigits2 (m * 2 ^ k) = Zdigits2 m + k.
Proof.
  intros Hm Hk. destruct (Zdigits2_spec m Hm) as [[Hlo Hhi] Hp].
  assert (H2 := pow2_pos k Hk).
  apply Z.le_antisymm.
  - apply Zdigits2_le; try nia. rewrite pow2_split by lia. nia.
  - apply Zdigits2_ge; try nia.
    replace (Zdigits2 m + k - 1) with ((Zdigits2 m - 1) + k) by lia.
    rewrite pow2_split by lia. nia.
Qed.

Lemma bounded_by_mono (N N' : Z) (x : spec_float) :
  N <= N' -> bounded_by N x = true -> bounded_by N' x = true.
Proof.
  intros HN. destruct x as [s| s | | s m e]; cbn [bounded_by]; auto.
  rewrite !andb_true_iff, !Z.leb_le. intros [He Hm]. split; auto.
  assert (0 < 2 ^ (- e)) by (apply pow2_pos; lia). nia.
Qed.

Lemma bounded_by_finite (N : Z) (s : bool) (m : positive) (e : Z) :
  bounded_by N (S754_finite s m e) = true <-> e <= 0 /\ Zpos m <= N * 2 ^ (- e).
Proof. cbn [bounded_by]. rewrite andb_true_iff, !Z.leb_le. tauto. Qed.

Lemma bounded_by_not_nan (N : Z) (x : spec_float) :
  bounded_by N x = true -> is_finite x = true.
Proof. destruct x; cbn; congruence. Qed.

Section Rounding.
Variables prec emax : Z.
Hypothesis Hprec : 0 < prec.
Hypothesis Hemax : prec < emax.
Hypothesis Hemax3 : 3 <= emax.

Let emin := SpecFloat.emin prec emax.
Let fexp := SpecFloat.fexp prec emax.

Lemma fexp_mono (a b : Z) : a <= b -> fexp a <= fexp b.
Proof. unfold fexp, SpecFloat.fexp. lia. Qed.

(** One [shr_fexp]: the mantissa loses the low bits below the target
    exponent, and a record that started exact raises a flag only when
    a dropped bit was set. *)
Lemma shr_fexp_spec (m e : Z) (l : location) :
  0 <= m ->
  let e' := Z.max e (fexp (Zdigits2 m + e)) in
  exists r, shr_fexp prec emax m e l = (r, e') /\
            shr_inv (l = loc_Exact) m (e' - e) r.
Proof.
  intros Hm e'. unfold shr_fexp, shr. fold fexp.
  destruct (fexp (Zdigits2 m + e) - e) as [|p|p] eqn:En.
  - exists (shr_record_of_loc m l). split; [f_equal; lia|].
    replace (e' - e) with 0 by lia. split.
    + rewrite shr_record_of_loc_m, Z.pow_0_r, Z.div_1_r. reflexivity.
    + intros -> [H|H]; discriminate.
  - exists (iter_pos shr_1 p (shr_record_of_loc m l)). split; [f_equal; lia|].
    replace (e' - e) with (0 + Zpos p) by lia.
    apply shr_inv_iter; [lia|lia|]. split.
    + rewrite shr_record_of_loc_m, Z.pow_0_r, Z.div_1_r. reflexivity.
    + intros -> [H|H]; discriminate.
  - exists (shr_record_of_loc m l). split; [f_equal; lia|].
    replace (e' - e) with 0 by lia. split.
    + rewrite shr_record_of_loc_m, Z.pow_0_r, Z.div_1_r. reflexivity.
    + intros -> [H|H]; discriminate.
Qed.

Lemma round_nearest_even_spec (r : shr_record) :
  let m1 := round_nearest_even (shr_m r) (loc_of_shr_record r) in
  (m1 = shr_m r \/ (m1 = shr_m r + 1 /\ shr_r r = true)).
Proof.
  destruct r as [m [|] [|]]; cbn; auto.
  destruct (Z.even m); auto.
Qed.
(** [binary_round_aux] as two shifts around one rounding step. *)
Lemma binary_round_aux_unfold (s : bool) (mx ex : Z) (lx : location) :
  0 <= mx ->
  exists r1 r2,
    let e1 := Z.max ex (fexp (Zdigits2 mx + ex)) in
    let m1 := round_nearest_even (shr_m r1) (loc_of_shr_record r1) in
    let e2 := Z.max e1 (fexp (Zdigits2 m1 + e1)) in
    shr_inv (lx = loc_Exact) mx (e1 - ex) r1 /\
    0 <= m1 /\
    shr_inv (loc_Exact = loc_Exact) m1 (e2 - e1) r2 /\
    binary_round_aux prec emax s mx ex lx =
      match shr_m r2 with
      | Z0 => S754_zero s
      | Zpos m => if e2 <=? emax - prec then S754_finite s m e2 else S754_infinity s
      | Zneg _ => S754_nan
      end.
Proof.
  intros Hm.
  destruct (shr_fexp_spec mx ex lx Hm) as (r1 & E1 & I1).
  assert (Hm1 : 0 <= round_nearest_even (shr_m r1) (loc_of_shr_record r1)).
  { assert (0 <= shr_m r1).
    { destruct I1 as [-> _]. apply Z.div_pos; [lia|]. apply pow2_pos. lia. }
    destruct (round_nearest_even_spec r1) as [-> | [-> _]]; lia. }
  destruct (shr_fexp_spec _ (Z.max ex (fexp (Zdigits2 mx + ex))) loc_Exact Hm1)
    as (r2 & E2 & I2).
  exists r1, r2. cbv zeta. repeat split; try apply I1; try apply I2; auto.
  unfold binary_round_aux. unfold fexp in *. rewrite E1, E2. reflexivity.
Qed.

(** The result of rounding a non-negative mantissa is never a NaN, keeps
    the sign it was given and has at most [prec] digits. *)
Lemma binary_round_aux_digits (s : bool) (mx ex : Z) (lx : location) :
  0 <= mx ->
  match binary_round_aux prec emax s mx ex lx with
  | S754_nan => False
  | S754_finite s' m _ => s' = s /\ Zpos (digits2_pos m) <= prec
  | S754_zero s' | S754_infinity s' => s' = s
  end.
Proof.
  intros Hm.
  destruct (binary_round_aux_unfold s mx ex lx Hm) as (r1 & r2 & _ & Hm1 & [V2 _] & ->).
  set (e1 := Z.max ex (fexp (Zdigits2 mx + ex))) in *.
  set (m1 := round_nearest_even (shr_m r1) (loc_of_shr_record r1)) in *.
  set (e2 := Z.max e1 (fexp (Zdigits2 m1 + e1))) in *.
  assert (Hn : 0 <= e2 - e1) by lia.
  assert (H2 := pow2_pos _ Hn).
  destruct (shr_m r2) as [|m|m] eqn:Em2; auto.
  - destruct (e2 <=? emax - prec); auto. split; auto.
    change (Zdigits2 (Zpos m) <= prec). rewrite V2.
    rewrite Zdigits2_div by lia.
    unfold e2, fexp, SpecFloat.fexp. lia.
  - assert (0 <= m1 / 2 ^ (e2 - e1)) by (apply Z.div_pos; lia). lia.
Qed.

(** Rounding to nearest never crosses a bound [N] that the format holds
    exactly: an exact [mx * 2^ex <= N < 2^prec] rounds to a value [<= N]. *)
Lemma binary_round_aux_bounded (N : Z) (s : bool) (mx ex : Z) :
  0 <= N < 2 ^ prec -> 0 <= mx -> ex <= 0 -> mx <= N * 2 ^ (- ex) ->
  bounded_by N (binary_round_aux prec emax s mx ex loc_Exact) = true.
Proof.
  intros HN Hm Hex Hb.
  destruct (binary_round_aux_unfold s mx ex loc_Exact Hm)
    as (r1 & r2 & [V1 F1] & Hm1 & [V2 _] & ->).
  set (e1 := Z.max ex (fexp (Zdigits2 mx + ex))) in *.
  set (m1 := round_nearest_even (shr_m r1) (loc_of_shr_record r1)) in *.
  set (e2 := Z.max e1 (fexp (Zdigits2 m1 + e1))) in *.
  (* a mantissa under the bound has few enough digits *)
  assert (Hdig : forall m e, 0 <= m -> e <= 0 -> m <= N * 2 ^ (- e) ->
                             fexp (Zdigits2 m + e) <= 0).
  { intros m e Hm0 He Hle. unfold fexp, SpecFloat.fexp, SpecFloat.emin.
    destruct (Z.eq_dec m 0) as [-> | Hnz]; [change (Zdigits2 0) with 0; lia|].
    assert (Zdigits2 m <= prec - e); [|lia].
    apply Zdigits2_le; try lia.
    replace (prec - e) with (prec + - e) by lia. rewrite pow2_split by lia.
    assert (0 < 2 ^ (- e)) by (apply pow2_pos; lia). nia. }
  (* shifting right keeps the bound *)
  assert (Hsh : forall m e e', 0 <= m -> e <= e' -> e' <= 0 -> m <= N * 2 ^ (- e) ->
                               m / 2 ^ (e' - e) <= N * 2 ^ (- e')).
  { intros m e e' Hm0 He He' Hle.
    assert (0 < 2 ^ (e' - e)) by (apply pow2_pos; lia).
    apply Z.div_le_upper_bound; [lia|].
    replace (- e) with ((e' - e) + (- e')) in Hle by lia.
    rewrite pow2_split in Hle by lia. lia. }
  assert (He1 : e1 <= 0) by (specialize (Hdig mx ex Hm Hex Hb); lia).
  assert (Hb1 : m1 <= N * 2 ^ (- e1)).
  { assert (Hq := Hsh mx ex e1 Hm ltac:(lia) He1 Hb).
    destruct (round_nearest_even_spec r1) as [E | [E Hr]]; fold m1 in E; rewrite E, V1; auto.
    assert (Hne := F1 eq_refl (or_introl Hr)).
    assert (H2 : 0 < 2 ^ (e1 - ex)) by (apply pow2_pos; lia).
    assert (Hdm := Z.div_mod mx (2 ^ (e1 - ex)) ltac:(lia)).
    assert (Hmb := Z.mod_pos_bound mx (2 ^ (e1 - ex)) H2).
    replace (- ex) with ((e1 - ex) + (- e1)) in Hb by lia.
    rewrite pow2_split in Hb by lia.
    assert (0 < 2 ^ (- e1)) by (apply pow2_pos; lia).
    nia. }
  assert (He2 : e2 <= 0) by (specialize (Hdig m1 e1 Hm1 He1 Hb1); lia).
  assert (Hb2 := Hsh m1 e1 e2 Hm1 ltac:(lia) He2 Hb1).
  rewrite <- V2 in Hb2.
  destruct (shr_m r2) as [|m|m] eqn:Em2; auto.
  - assert (Hle : (e2 <=? emax - prec) = true) by (apply Z.leb_le; lia).
    rewrite Hle. cbn [bounded_by]. apply andb_true_iff. split; [apply Z.leb_le | apply Z.leb_le]; lia.
  - assert (0 <= m1 / 2 ^ (e2 - e1)) by (apply Z.div_pos; [lia | apply pow2_pos; lia]). lia.
Qed.

(** When the mantissa has at least the digits the format asks for, the
    rounded result is in canonical form and its exponent is not below
    the exponent the exact value calls for; it is zero only on
    underflow. *)
Lemma binary_round_aux_canonical (s : bool) (mx ex : Z) (lx : location) :
  0 < mx -> ex <= fexp (Zdigits2 mx + ex) ->
  match binary_round_aux prec emax s mx ex lx with
  | S754_nan => False
  | S754_infinity s' => s' = s
  | S754_zero s' => s' = s /\ Zdigits2 mx + ex - prec < emin
  | S754_finite s' m e =>
      s' = s /\ canonical_mantissa prec emax m e = true /\
      fexp (Zdigits2 mx + ex) <= e /\ e <= emax - prec
  end.
Proof.
  intros Hm Hex.
  destruct (binary_round_aux_unfold s mx ex lx ltac:(lia))
    as (r1 & r2 & [V1 _] & Hm1 & [V2 _] & ->).
  set (d := Zdigits2 mx) in *.
  set (e1 := Z.max ex (fexp (d + ex))) in *.
  set (m1 := round_nearest_even (shr_m r1) (loc_of_shr_record r1)) in *.
  set (e2 := Z.max e1 (fexp (Zdigits2 m1 + e1))) in *.
  assert (Ee1 : e1 = fexp (d + ex)) by lia.
  assert (Hn1 : 0 <= e1 - ex) by lia.
  assert (H21 := pow2_pos _ Hn1).
  assert (Hq1 : 0 <= shr_m r1) by (rewrite V1; apply Z.div_pos; lia).
  assert (Hm1' : shr_m r1 <= m1 <= shr_m r1 + 1).
  { destruct (round_nearest_even_spec r1) as [E | [E _]]; fold m1 in E; lia. }
  (* the first shift leaves [d - (e1 - ex)] digits, or nothing on underflow *)
  assert (Hfirst : (0 < shr_m r1 /\ Zdigits2 (shr_m r1) + e1 = d + ex) \/
                   (shr_m r1 = 0 /\ e1 = emin /\ d + ex <= emin)).
  { destruct (Z.eq_dec (shr_m r1) 0) as [E0 | Hnz].
    - right. split; auto.
      assert (Hlt : mx < 2 ^ (e1 - ex)).
      { rewrite V1 in E0. apply Z.div_small_iff in E0; lia. }
      assert (d <= e1 - ex) by (apply Zdigits2_le; lia).
      unfold fexp, SpecFloat.fexp in Ee1. fold emin in Ee1. lia.
    - left. split; [lia|]. rewrite V1. rewrite Zdigits2_div; [fold d; lia | lia |].
      rewrite <- V1. lia. }
  assert (Hn2 : 0 <= e2 - e1) by lia.
  assert (H22 := pow2_pos _ Hn2).
  assert (Hq2 : 0 <= shr_m r2) by (rewrite V2; apply Z.div_pos; lia).
  destruct (Z.eq_dec m1 0) as [E10 | Hm1nz].
  { (* everything was rounded away *)
    rewrite E10, Z.div_0_l in V2 by lia. rewrite V2. split; auto.
    destruct Hfirst as [[? _] | (_ & _ & ?)]; lia. }
  (* the rounded mantissa still has at least the digits of its exponent *)
  assert (Hsecond : e1 <= fexp (Zdigits2 m1 + e1) /\ d + ex <= Zdigits2 m1 + e1).
  { destruct Hfirst as [[Hpos Hd] | (E0 & Emin & Hle)].
    - assert (Zdigits2 (shr_m r1) <= Zdigits2 m1) by (apply Zdigits2_mono; lia).
      split; [|lia]. rewrite Ee1. apply fexp_mono; auto. lia.
    - assert (E11 : m1 = 1) by lia. rewrite E11. change (Zdigits2 1) with 1.
      unfold fexp, SpecFloat.fexp. fold emin. lia. }
  assert (Ee2 : e2 = fexp (Zdigits2 m1 + e1)) by lia.
  destruct (shr_m r2) as [|m|m] eqn:Em2; try lia.
  - split; auto.
    assert (Hlt : m1 < 2 ^ (e2 - e1)).
    { symmetry in V2. apply Z.div_small_iff in V2; lia. }
    assert (Zdigits2 m1 <= e2 - e1) by (apply Zdigits2_le; lia).
    unfold fexp, SpecFloat.fexp in Ee2. fold emin in Ee2. lia.
  - assert (Hcan : canonical_mantissa prec emax m e2 = true /\ fexp (d + ex) <= e2).
    { split; [|lia]. unfold canonical_mantissa. apply Z.eqb_eq.
      change (Zpos (digits2_pos m)) with (Zdigits2 (Zpos m)).
      rewrite V2, Zdigits2_div by lia. fold fexp.
      replace (Zdigits2 m1 - (e2 - e1) + e2) with (Zdigits2 m1 + e1) by lia. lia. }
    destruct (e2 <=? emax - prec) eqn:Hle; auto.
    apply Z.leb_le in Hle. tauto.
Qed.
Lemma binary_round_bounded (N : Z) (s : bool) (m : positive) (e : Z) :
  0 <= N < 2 ^ prec -> e <= 0 -> Zpos m <= N * 2 ^ (- e) ->
  bounded_by N (binary_round prec emax s m e) = true.
Proof.
  intros HN He Hb. unfold binary_round.
  destruct (shl_align_spec m e (SpecFloat.fexp prec emax (Zpos (digits2_pos m) + e))) as [Es Ef].
  destruct (shl_align m e _) as [mz ez]. cbn [fst snd] in *.
  apply binary_round_aux_bounded; auto; try lia.
  rewrite Ef.
  set (e' := Z.min e _) in *.
  replace (- ez) with ((e - ez) + (- e)) by lia. rewrite pow2_split by lia.
  assert (0 < 2 ^ (e - ez)) by (apply pow2_pos; lia).
  subst ez. nia.
Qed.

Lemma binary_normalize_bounded (N m e : Z) (sz : bool) :
  0 <= N < 2 ^ prec -> e <= 0 -> Z.abs m <= N * 2 ^ (- e) ->
  bounded_by N (binary_normalize prec emax m e sz) = true.
Proof.
  intros HN He Hb. destruct m as [|p|p]; cbn [binary_normalize]; auto;
    apply binary_round_bounded; auto.
Qed.

(** A product of bounded values is bounded by the product of the bounds. *)
Lemma SFmul_bounded (A B : Z) (x y : spec_float) :
  0 <= A -> 0 <= B -> A * B < 2 ^ prec ->
  bounded_by A x = true -> bounded_by B y = true ->
  bounded_by (A * B) (SFmul prec emax x y) = true.
Proof using Hprec Hemax Hemax3.
  intros HA HB HAB Hx Hy.
  destruct x as [sx | sx | | sx mx ex]; try discriminate;
    destruct y as [sy | sy | | sy my ey]; try discriminate; cbn [SFmul bounded_by]; auto.
  apply bounded_by_finite in Hx, Hy. destruct Hx as [Hex Hmx], Hy as [Hey Hmy].
  apply binary_round_aux_bounded; auto; try lia.
  rewrite Pos2Z.inj_mul.
  replace (- (ex + ey)) with ((- ex) + (- ey)) by lia. rewrite pow2_split by lia.
  assert (0 < 2 ^ (- ex)) by (apply pow2_pos; lia).
  assert (0 < 2 ^ (- ey)) by (apply pow2_pos; lia).
  nia.
Qed.

(** A sum of bounded values is bounded by the sum of the bounds. *)
Lemma SFadd_bounded (A B : Z) (x y : spec_float) :
  0 <= A -> 0 <= B -> A + B < 2 ^ prec ->
  bounded_by A x = true -> bounded_by B y = true ->
  bounded_by (A + B) (SFadd prec emax x y) = true.
Proof using Hprec Hemax Hemax3.
  intros HA HB HAB Hx Hy.
  destruct x as [sx | sx | | sx mx ex]; try discriminate;
    destruct y as [sy | sy | | sy my ey]; try discriminate; cbn [SFadd].
  - destruct sx, sy; reflexivity.
  - apply bounded_by_mono with B; auto; lia.
  - apply bounded_by_mono with A; auto; lia.
  - apply bounded_by_finite in Hx, Hy. destruct Hx as [Hex Hmx], Hy as [Hey Hmy].
    destruct (shl_align_spec mx ex (Z.min ex ey)) as [_ Ex].
    destruct (shl_align_spec my ey (Z.min ex ey)) as [_ Ey].
    rewrite Ex, Ey. clear Ex Ey.
    replace (Z.min ex (Z.min ex ey)) with (Z.min ex ey) by lia.
    replace (Z.min ey (Z.min ex ey)) with (Z.min ex ey) by lia.
    set (ez := Z.min ex ey).
    apply binary_normalize_bounded; auto; try lia.
    assert (Hx' : Zpos mx * 2 ^ (ex - ez) <= A * 2 ^ (- ez)).
    { replace (- ez) with ((ex - ez) + (- ex)) by lia. rewrite pow2_split by lia.
      assert (0 < 2 ^ (ex - ez)) by (apply pow2_pos; lia). nia. }
    assert (Hy' : Zpos my * 2 ^ (ey - ez) <= B * 2 ^ (- ez)).
    { replace (- ez) with ((ey - ez) + (- ey)) by lia. rewrite pow2_split by lia.
      assert (0 < 2 ^ (ey - ez)) by (apply pow2_pos; lia). nia. }
    assert (0 < 2 ^ (ex - ez)) by (apply pow2_pos; lia).
    assert (0 < 2 ^ (ey - ez)) by (apply pow2_pos; lia).
    unfold cond_Zopp. destruct sx, sy; lia.
Qed.
Lemma canonical_digits (m : positive) (e : Z) :
  canonical_mantissa prec emax m e = true -> emin < e -> Zpos (digits2_pos m) = prec.
Proof using Hprec Hemax Hemax3.
  unfold canonical_mantissa, SpecFloat.fexp. fold emin. intros H He.
  apply Z.eqb_eq in H. lia.
Qed.

Lemma binary_round_canonical (s : bool) (m : positive) (e : Z) :
  match binary_round prec emax s m e with
  | S754_nan => False
  | S754_infinity s' => s' = s
  | S754_zero s' => s' = s /\ Zpos (digits2_pos m) + e - prec < emin
  | S754_finite s' m' e' =>
      s' = s /\ canonical_mantissa prec emax m' e' = true /\
      fexp (Zpos (digits2_pos m) + e) <= e' /\ e' <= emax - prec /\
      Zpos (digits2_pos m') <= prec
  end.
Proof using Hprec Hemax Hemax3.
  unfold binary_round.
  destruct (shl_align_spec m e (SpecFloat.fexp prec emax (Zpos (digits2_pos m) + e))) as [Es Ef].
  destruct (shl_align m e _) as [mz ez]. cbn [fst snd] in *.
  assert (Hd : Zdigits2 (Zpos mz) + ez = Zpos (digits2_pos m) + e).
  { rewrite Ef, Zdigits2_mul_pow2 by lia. cbn [Zdigits2]. lia. }
  assert (Hc := binary_round_aux_canonical s (Zpos mz) ez loc_Exact
                  ltac:(lia)).
  assert (Hg := binary_round_aux_digits s (Zpos mz) ez loc_Exact
                  ltac:(lia)).
  rewrite Hd in Hc. fold fexp emin in Hc.
  specialize (Hc ltac:(subst ez; fold fexp; lia)).
  destruct (binary_round_aux prec emax s (Zpos mz) ez loc_Exact); auto.
  tauto.
Qed.

Lemma SFconv_not_nan (x : spec_float) :
  is_nan x = false ->
  match SFconv prec emax x with
  | S754_nan => False
  | S754_finite s m e =>
      s = sign_of x /\ canonical_mantissa prec emax m e = true /\
      Zpos (digits2_pos m) <= prec
  | S754_zero s | S754_infinity s => s = sign_of x
  end.
Proof using Hprec Hemax Hemax3.
  destruct x as [s | s | | s m e]; cbn [SFconv is_nan sign_of]; auto; try discriminate.
  intros _. assert (H := binary_round_canonical s m e).
  destruct (binary_round prec emax s m e); tauto.
Qed.

Lemma SFdiv_core_binary_fst (m1 e1 m2 e2 : Z) :
  0 <= m1 -> 0 < m2 ->
  let '(q, e', _) := SFdiv_core_binary prec emax m1 e1 m2 e2 in
  let e0 := Z.min (fexp (Zdigits2 m1 + e1 - (Zdigits2 m2 + e2))) (e1 - e2) in
  e' = e0 /\ q = (m1 * 2 ^ (e1 - e2 - e0)) / m2.
Proof.
  intros H1 H2. unfold SFdiv_core_binary. fold fexp.
  set (e0 := Z.min _ (e1 - e2)).
  assert (Hs : 0 <= e1 - e2 - e0) by lia.
  set (m' := match e1 - e2 - e0 with Z0 => m1 | Zpos _ => Z.shiftl m1 (e1 - e2 - e0) | Zneg _ => 0 end).
  assert (Em' : m' = m1 * 2 ^ (e1 - e2 - e0)).
  { subst m'. destruct (e1 - e2 - e0) as [|p|p] eqn:E; try lia.
    rewrite Z.shiftl_mul_pow2 by lia. reflexivity. }
  rewrite <- Em'. unfold Z.div.
  destruct (Z.div_eucl m' m2) as [q r]. cbv zeta. auto.
Qed.

(** A division by a finite non-zero number does not make a NaN out of
    a number. *)
Lemma SFdiv_not_nan (x : spec_float) (sy : bool) (my : positive) (ey : Z) :
  is_nan x = false ->
  is_nan (SFdiv prec emax x (S754_finite sy my ey)) = false.
Proof using Hprec Hemax Hemax3.
  destruct x as [s | s | | s m e]; cbn [SFdiv is_nan]; auto. intros _.
  assert (H := SFdiv_core_binary_fst (Zpos m) e (Zpos my) ey ltac:(lia) ltac:(lia)).
  destruct (SFdiv_core_binary prec emax (Zpos m) e (Zpos my) ey) as [[q e'] l].
  cbv zeta in H. destruct H as [_ Eq].
  assert (0 <= q).
  { rewrite Eq. apply Z.div_pos; [|lia].
    assert (0 <= 2 ^ (e - ey - Z.min (fexp (Zdigits2 (Zpos m) + e - (Zdigits2 (Zpos my) + ey))) (e - ey)))
      by (apply Z.pow_nonneg; lia).
    lia. }
  assert (Hg := binary_round_aux_digits (xorb s sy) q e' l ltac:(lia)).
  destruct (binary_round_aux prec emax (xorb s sy) q e' l); auto; contradiction.
Qed.

(** Dividing a normal number by a normal number that is not larger
    gives at least one. *)
Lemma SFdiv_at_least_one (sx sy : bool) (mx my : positive) (ex ey : Z) :
  Zpos (digits2_pos mx) = prec -> Zpos (digits2_pos my) = prec ->
  ey < ex \/ (ey = ex /\ (my <= mx)%positive) ->
  let q := SFdiv prec emax (S754_finite sx mx ex) (S754_finite sy my ey) in
  at_least_one prec emax q = true /\ sign_of q = xorb sx sy.
Proof using Hprec Hemax Hemax3.
  intros Hdx Hdy Hle. cbn [SFdiv]. cbv zeta.
  assert (H := SFdiv_core_binary_fst (Zpos mx) ex (Zpos my) ey ltac:(lia) ltac:(lia)).
  destruct (SFdiv_core_binary prec emax (Zpos mx) ex (Zpos my) ey) as [[q e'] l].
  cbv zeta in H. cbn [Zdigits2] in H. rewrite Hdx, Hdy in H.
  replace (prec + ex - (prec + ey)) with (ex - ey) in H by lia.
  assert (Ef : Z.min (fexp (ex - ey)) (ex - ey) = ex - ey - prec).
  { unfold fexp, SpecFloat.fexp, SpecFloat.emin. lia. }
  rewrite Ef in H. replace (ex - ey - (ex - ey - prec)) with prec in H by lia.
  destruct H as [-> Eq].
  destruct (digits2_pos_spec mx) as [Hxlo Hxhi]. rewrite Hdx in Hxlo, Hxhi.
  destruct (digits2_pos_spec my) as [Hylo Hyhi]. rewrite Hdy in Hylo, Hyhi.
  assert (Hp := pow2_pos prec ltac:(lia)).
  assert (Hp1 := pow2_pos (prec - 1) ltac:(lia)).
  assert (Hq1 : 2 ^ (prec - 1) <= q).
  { rewrite Eq. apply Z.div_le_lower_bound; [lia|]. nia. }
  assert (Hq2 : ey = ex -> 2 ^ prec <= q).
  { intros E. rewrite Eq. apply Z.div_le_lower_bound; [lia|].
    assert (Zpos my <= Zpos mx) by (destruct Hle as [? | [_ ?]]; lia). nia. }
  assert (Hdq1 : prec <= Zdigits2 q) by (apply Zdigits2_ge; lia).
  assert (Hdq2 : ey = ex -> prec + 1 <= Zdigits2 q).
  { intros E. apply Zdigits2_ge; [lia|]. replace (prec + 1 - 1) with prec by lia. auto. }
  assert (Hc := binary_round_aux_canonical (xorb sx sy) q
                  (ex - ey - prec) l ltac:(lia)).
  fold fexp emin in Hc.
  assert (Hfe : ex - ey - prec <= fexp (Zdigits2 q + (ex - ey - prec))).
  { unfold fexp, SpecFloat.fexp. lia. }
  specialize (Hc Hfe).
  destruct (binary_round_aux prec emax (xorb sx sy) q (ex - ey - prec) l)
    as [s | s | | s m e]; cbn [at_least_one sign_of]; try tauto.
  - exfalso. unfold emin, SpecFloat.emin in Hc. lia.
  - destruct Hc as (-> & Hcan & Hlo & _). split; auto.
    rewrite Hcan, andb_true_l. apply Z.leb_le.
    unfold fexp, SpecFloat.fexp in Hlo.
    destruct (Z.eq_dec ey ex) as [E|E]; [specialize (Hdq2 E)|]; lia.
Qed.
End Rounding.

(** Narrowing keeps a magnitude of at least one. *)
Lemma SFconv_at_least_one (p1 em1 p2 em2 : Z) (x : spec_float) :
  0 < p1 -> 2 < em1 -> 0 < p2 -> p2 < em2 -> 3 <= em2 -> p2 <= p1 ->
  at_least_one p1 em1 x = true ->
  at_least_one p2 em2 (SFconv p2 em2 x) = true /\ sign_of (SFconv p2 em2 x) = sign_of x.
Proof.
  intros Hp1 Hem1 Hp2 Hem2 Hem3 Hle Hx.
  destruct x as [s | s | | s m e]; try discriminate; cbn [SFconv]; auto.
  cbn [at_least_one] in Hx. apply andb_true_iff in Hx. destruct Hx as [Hcan He].
  apply Z.leb_le in He.
  assert (Hd : Zpos (digits2_pos m) = p1).
  { unfold canonical_mantissa, fexp, emin in Hcan. apply Z.eqb_eq in Hcan. lia. }
  assert (H := binary_round_canonical p2 em2 Hp2 Hem2 Hem3 s m e).
  destruct (binary_round p2 em2 s m e) as [s' | s' | | s' m' e']; cbn [at_least_one sign_of];
    try tauto.
  - exfalso. unfold emin in H. lia.
  - destruct H as (-> & Hcan' & Hlo & _). split; auto.
    rewrite Hcan', andb_true_l. apply Z.leb_le. unfold fexp in Hlo. lia.
Qed.

(** ** Comparisons and the clamp *)

Lemma one32_eq : one32 = S754_finite false 8388608 (-23).
Proof. reflexivity. Qed.

Lemma minus_one32_eq : minus_one32 = S754_finite true 8388608 (-23).
Proof. reflexivity. Qed.

Lemma SFltb_finite (s1 s2 : bool) (m1 m2 : positive) (e1 e2 : Z) :
  SFltb (S754_finite s1 m1 e1) (S754_finite s2 m2 e2) =
  match s1, s2 with
  | true, false => true
  | false, true => false
  | false, false => (e1 <? e2) || ((e1 =? e2) && (Zpos m1 <? Zpos m2))
  | true, true => (e2 <? e1) || ((e1 =? e2) && (Zpos m2 <? Zpos m1))
  end.
Proof.
  unfold SFltb, SFcompare. change (Pos.compare_cont Eq m1 m2) with (Pos.compare m1 m2).
  destruct s1, s2; auto;
    destruct (Z.compare_spec e1 e2); destruct (Pos.compare_spec m1 m2);
    repeat match goal with
           | |- context [?a <? ?b] => destruct (Z.ltb_spec a b)
           | |- context [?a =? ?b] => destruct (Z.eqb_spec a b)
           end; cbn [orb andb CompOpp]; try reflexivity; lia.
Qed.

(** A value of magnitude at least one is clamped to the bound of its sign. *)
Lemma constrain_at_least_one (v : float) :
  at_least_one F32.prec F32.emax v = true ->
  Good.constrain v minus_one32 one32 = if sign_of v then minus_one32 else one32.
Proof.
  destruct v as [s | s | | s m e]; try discriminate.
  - intros _. destruct s; reflexivity.
  - cbn [at_least_one sign_of]. rewrite andb_true_iff, Z.leb_le. intros [Hcan He].
    unfold F32.prec in He.
    assert (Hd : e = -23 -> Zpos (digits2_pos m) = 24).
    { intros ->. apply (canonical_digits 24 128 ltac:(lia) ltac:(lia) ltac:(lia) m (-23)); auto. unfold emin; lia. }
    assert (Hm : e = -23 -> 8388608 <= Zpos m).
    { intros E. destruct (digits2_pos_spec m) as [Hlo _]. rewrite (Hd E) in Hlo. exact Hlo. }
    unfold Good.constrain, flt, fgt. rewrite one32_eq, minus_one32_eq, !SFltb_finite.
    destruct s.
    + destruct (Z.ltb_spec (-23) e) as [H|H]; cbn [orb]; auto.
      assert (E : e = -23) by lia. specialize (Hm E). subst e. cbn [Z.eqb andb Pos.eqb].
      destruct (Z.ltb_spec 8388608 (Zpos m)) as [H1|H1]; auto.
      replace m with 8388608%positive by lia. reflexivity.
    + destruct (Z.ltb_spec (-23) e) as [H|H]; cbn [orb]; auto.
      assert (E : e = -23) by lia. specialize (Hm E). subst e. cbn [Z.eqb andb Pos.eqb].
      destruct (Z.ltb_spec 8388608 (Zpos m)) as [H1|H1]; auto.
      replace m with 8388608%positive by lia. reflexivity.
Qed.

(** A value that is not a NaN and has at most 24 digits is clamped into
    [-1, 1]. *)
Lemma constrain_bounded (v : float) :
  match v with
  | S754_nan => False
  | S754_finite _ m _ => Zpos (digits2_pos m) <= 24
  | _ => True
  end ->
  bounded_by 1 (Good.constrain v minus_one32 one32) = true.
Proof.
  destruct v as [s | s | | s m e]; try contradiction.
  - intros _. destruct s; reflexivity.
  - intros _. destruct s; reflexivity.
  - intros Hd.
    assert (Hm : Zpos m < 2 ^ 24).
    { destruct (digits2_pos_spec m) as [_ Hhi].
      assert (2 ^ Zpos (digits2_pos m) <= 2 ^ 24) by (apply pow2_le; lia). lia. }
    assert (Hb : (e <? -23) || ((e =? -23) && (Zpos m <=? 8388608)) = true ->
                 bounded_by 1 (S754_finite s m e) = true).
    { intros H. apply bounded_by_finite.
      apply orb_true_iff in H. destruct H as [H | H].
      - apply Z.ltb_lt in H. split; [lia|].
        assert (2 ^ 24 <= 2 ^ (- e)) by (apply pow2_le; lia). lia.
      - apply andb_true_iff in H. destruct H as [H1 H2].
        apply Z.eqb_eq in H1. apply Z.leb_le in H2. subst e. cbn. lia. }
    unfold Good.constrain, flt, fgt. rewrite one32_eq, minus_one32_eq, !SFltb_finite.
    destruct s.
    + destruct (Z.ltb_spec (-23) e) as [H|H]; cbn [orb]; auto.
      destruct (Z.eqb_spec e (-23)) as [E|E]; cbn [andb].
      * destruct (Z.ltb_spec 8388608 (Zpos m)) as [H1|H1]; auto.
        apply Hb. subst e. cbn [Z.ltb Z.eqb Pos.eqb Z.compare Pos.compare Pos.compare_cont orb andb].
        apply Z.leb_le; lia.
      * apply Hb. apply orb_true_iff. left. apply Z.ltb_lt. lia.
    + destruct (Z.ltb_spec (-23) e) as [H|H]; cbn [orb]; auto.
      destruct (Z.eqb_spec (-23) e) as [E|E]; cbn [andb].
      * destruct (Z.ltb_spec 8388608 (Zpos m)) as [H1|H1]; auto.
        apply Hb. subst e. apply orb_true_iff. right. apply Z.leb_le; lia.
      * apply Hb. apply orb_true_iff. left. apply Z.ltb_lt. lia.
Qed.

Lemma SFltb_rank (x y : spec_float) :
  is_nan x = false -> is_nan y = false ->
  (SFltb x y = true <-> lex_lt (rank x) (rank y)).
Proof.
  destruct x as [sx | sx | | sx mx ex]; destruct y as [sy | sy | | sy my ey];
    try discriminate; intros _ _; unfold SFltb, SFcompare, lex_lt, rank;
    try destruct sx; try destruct sy;
    try (change (Pos.compare_cont Eq mx my) with (Pos.compare mx my);
         destruct (Z.compare_spec ex ey); destruct (Pos.compare_spec mx my));
    cbn [CompOpp]; split; intros Hcmp; try discriminate; try reflexivity; try lia.
Qed.

Lemma SFleb_rank (x y : spec_float) :
  is_nan x = false -> is_nan y = false ->
  (SFleb x y = true <-> ~ lex_lt (rank y) (rank x)).
Proof.
  destruct x as [sx | sx | | sx mx ex]; destruct y as [sy | sy | | sy my ey];
    try discriminate; intros _ _; unfold SFleb, SFcompare, lex_lt, rank;
    try destruct sx; try destruct sy;
    try (change (Pos.compare_cont Eq mx my) with (Pos.compare mx my);
         destruct (Z.compare_spec ex ey); destruct (Pos.compare_spec mx my));
    cbn [CompOpp]; split; intros Hcmp; try discriminate; try reflexivity; try lia.
Qed.

Lemma fle_of_not_fgt (x y : float) :
  is_nan x = false -> is_nan y = false -> fgt x y = false -> fle x y = true.
Proof.
  intros Hx Hy H. unfold fgt in H. apply not_true_iff_false in H.
  rewrite SFltb_rank in H by assumption. apply SFleb_rank; assumption.
Qed.

Lemma fle_refl (x : float) : is_nan x = false -> fle x x = true.
Proof.
  intros Hx. apply SFleb_rank; auto. destruct (rank x) as [[a b] c]. unfold lex_lt. lia.
Qed.

Lemma flt_fle (x y : float) :
  is_nan x = false -> is_nan y = false -> flt x y = true -> fle x y = true.
Proof.
  intros Hx Hy H. unfold flt in H. apply SFltb_rank in H; auto. apply SFleb_rank; auto.
  destruct (rank x) as [[a b] c], (rank y) as [[a' b'] c']. unfold lex_lt in *. lia.
Qed.

Lemma flt_trans (x y z : float) :
  is_nan x = false -> is_nan y = false -> is_nan z = false ->
  flt x y = true -> flt y z = true -> flt x z = true.
Proof.
  intros Hx Hy Hz H1 H2. unfold flt in *.
  apply SFltb_rank in H1, H2; auto. apply SFltb_rank; auto.
  destruct (rank x) as [[a b] c], (rank y) as [[a' b'] c'], (rank z) as [[a'' b''] c''].
  unfold lex_lt in *. lia.
Qed.

Lemma fle_flt_trans (x y z : float) :
  is_nan x = false -> is_nan y = false -> is_nan z = false ->
  fle x y = true -> flt y z = true -> flt x z = true.
Proof.
  intros Hx Hy Hz H1 H2. unfold flt, fle in *.
  apply SFleb_rank in H1; auto. apply SFltb_rank in H2; auto. apply SFltb_rank; auto.
  destruct (rank x) as [[a b] c], (rank y) as [[a' b'] c'], (rank z) as [[a'' b''] c''].
  unfold lex_lt in *. lia.
Qed.

Lemma fle_trans (x y z : float) :
  is_nan x = false -> is_nan y = false -> is_nan z = false ->
  fle x y = true -> fle y z = true -> fle x z = true.
Proof.
  intros Hx Hy Hz H1 H2. unfold fle in *.
  apply SFleb_rank in H1, H2; auto. apply SFleb_rank; auto.
  destruct (rank x) as [[a b] c], (rank y) as [[a' b'] c'], (rank z) as [[a'' b''] c''].
  unfold lex_lt in *. lia.
Qed.

Lemma flt_not_fle (x y : float) :
  is_nan x = false -> is_nan y = false -> flt x y = true -> fle y x = true -> False.
Proof.
  intros Hx Hy H1 H2. unfold flt, fle in *.
  apply SFltb_rank in H1; auto. apply SFleb_rank in H2; auto.
Qed.

(** ** The running maximum *)

(** The running maximum: its value dominates the start value and every
    score, and either no score exceeded the start value, or the result
    is the first index at which the final maximum is reached. *)
Lemma select_from_spec (scores : list float) :
  Forall (fun s => is_nan s = false) scores ->
  forall (o : Z) (mv : float) (best : Z),
    is_nan mv = false ->
    let r := select_from scores o mv best in
    is_nan (fst r) = false /\
    fle mv (fst r) = true /\
    (forall j, (j < length scores)%nat -> fle (nth j scores S754_nan) (fst r) = true) /\
    (r = (mv, best) \/
     exists k, (k < length scores)%nat /\
               snd r = o + Z.of_nat k /\
               nth k scores S754_nan = fst r /\
               flt mv (fst r) = true /\
               forall j, (j < k)%nat -> flt (nth j scores S754_nan) (fst r) = true).
Proof.
  induction 1 as [| s rest Hs Hrest IH]; intros o mv best Hmv; cbn [select_from].
  - cbn [fst snd length]. repeat split; auto using fle_refl. intros j Hj. lia.
  - destruct (fgt s mv) eqn:Hgt.
    + destruct (IH (o + 1) s o Hs) as (Hn & Hle & Hall & Hcase).
      set (r := select_from rest (o + 1) s o) in *.
      assert (Hmvs : flt mv s = true) by exact Hgt.
      split; auto. split.
      { apply fle_trans with s; auto. apply flt_fle; auto. }
      split.
      { intros [|j] Hj; cbn [nth]; auto. apply Hall. cbn [length] in Hj. lia. }
      right. destruct Hcase as [Er | (k & Hk & Eb & En & Hlt & Hbefore)].
      * exists 0%nat. rewrite Er. cbn [fst snd nth length]. repeat split; auto; try lia.
      * exists (S k). cbn [length nth]. repeat split; auto; try lia.
        { apply flt_trans with s; auto. }
        intros [|j] Hj; auto. apply Hbefore. lia.
    + destruct (IH (o + 1) mv best Hmv) as (Hn & Hle & Hall & Hcase).
      set (r := select_from rest (o + 1) mv best) in *.
      assert (Hsmv : fle s mv = true) by (apply fle_of_not_fgt; auto).
      split; auto. split; auto. split.
      { intros [|j] Hj; cbn [nth].
        - apply fle_trans with mv; auto.
        - apply Hall. cbn [length] in Hj. lia. }
      destruct Hcase as [Er | (k & Hk & Eb & En & Hlt & Hbefore)]; [left; auto|].
      right. exists (S k). cbn [length nth]. repeat split; auto; try lia.
      intros [|j] Hj.
      * apply fle_flt_trans with mv; auto.
      * apply Hbefore. lia.
Qed.

(** Started from a value that some score exceeds, the running maximum ends
    on the lowest index of a maximal score. *)
Lemma select_from_first_argmax (scores : list float) (mv : float) :
  Forall (fun s => is_nan s = false) scores ->
  is_nan mv = false ->
  Exists (fun s => flt mv s = true) scores ->
  exists i, select_from scores 0 mv 0 = (nth i scores S754_nan, Z.of_nat i) /\
            first_argmax scores i.
Proof.
  intros Hs Hmv Hex.
  destruct (select_from_spec scores Hs 0 mv 0 Hmv) as (Hn & Hle & Hall & Hcase).
  destruct (select_from scores 0 mv 0) as [mv' best'] eqn:Er. cbn [fst snd] in *.
  destruct Hcase as [E | (k & Hk & Eb & En & Hlt & Hbefore)].
  - exfalso. injection E as -> ->.
    apply Exists_exists in Hex. destruct Hex as (s & Hin & Hgt).
    destruct (In_nth scores s S754_nan Hin) as (j & Hj & Ej).
    specialize (Hall j Hj). rewrite Ej in Hall.
    rewrite Forall_forall in Hs.
    apply (flt_not_fle mv s); auto.
  - exists k. rewrite En, Eb. split; [f_equal; lia|].
    split; auto. rewrite En. split; auto.
Qed.

(** ** Arrays, loops and the frame of [getAction] *)

Lemma load_nth {A : Type} (l : list A) (i : Z) (k : nat) (d : A) :
  i = Z.of_nat k -> (k < length l)%nat -> load l i = Value (nth k l d).
Proof.
  intros -> Hk. unfold load.
  destruct (Z.ltb_spec (Z.of_nat k) 0); [lia|]. rewrite Nat2Z.id.
  rewrite (nth_error_nth' l d Hk). reflexivity.
Qed.

Lemma update_app {A : Type} (l1 l2 : list A) (c x : A) :
  update (length l1) x (l1 ++ c :: l2) = l1 ++ x :: l2.
Proof. induction l1 as [|a l1 IH]; cbn; [reflexivity | now rewrite IH]. Qed.

Lemma assign_at (l1 l2 : cells) (c : option float) (i : Z) (x : float) :
  i = Z.of_nat (length l1) -> assign (l1 ++ c :: l2) i x = Value (l1 ++ Some x :: l2).
Proof.
  intros ->. unfold assign, store. rewrite length_app. cbn [length].
  destruct (Z.leb_spec 0 (Z.of_nat (length l1))); [|lia].
  destruct (Z.ltb_spec (Z.of_nat (length l1)) (Z.of_nat (length l1 + S (length l2)))); [|lia].
  cbn [andb]. rewrite Nat2Z.id, update_app. reflexivity.
Qed.

Lemma fetch_at (l1 l2 : cells) (i : Z) (x : float) :
  i = Z.of_nat (length l1) -> fetch (l1 ++ Some x :: l2) i = Value x.
Proof.
  intros ->. unfold fetch.
  rewrite (load_nth _ _ (length l1) None eq_refl) by (rewrite length_app; cbn; lia).
  rewrite app_nth2, Nat.sub_diag by lia. reflexivity.
Qed.

(** A loop whose body adds [g k] to one cell sums the [g k] in order. *)
Lemma for_loop_accumulate (g : nat -> float) (l1 l2 : cells)
      (body : Z -> cells -> result cells) (n : nat) :
  forall (n0 : nat) (acc0 : float),
    (forall k acc, (n0 <= k < n0 + n)%nat ->
                   body (Z.of_nat k) (l1 ++ Some acc :: l2) =
                   Value (l1 ++ Some (F32.add acc (g k)) :: l2)) ->
    for_loop n (Z.of_nat n0) body (l1 ++ Some acc0 :: l2) =
    Value (l1 ++ Some (fold_left (fun acc k => F32.add acc (g k)) (seq n0 n) acc0) :: l2).
Proof.
  induction n as [|n IH]; intros n0 acc0 Hbody; cbn [for_loop seq fold_left]; auto.
  rewrite Hbody by lia. cbn [bind].
  replace (Z.of_nat n0 + 1) with (Z.of_nat (S n0)) by lia.
  apply IH. intros k acc Hk. apply Hbody. lia.
Qed.

(** A loop whose body gives cell [k] the value [f k] fills the array. *)
Lemma for_loop_fill (f : nat -> float) (body : Z -> cells -> result cells) (n : nat) :
  (forall k l1 l2, length l1 = k -> (length l1 + S (length l2) = n)%nat ->
                   body (Z.of_nat k) (l1 ++ None :: l2) = Value (l1 ++ Some (f k) :: l2)) ->
  for_loop n 0 body (repeat None n) = Value (map Some (map f (seq 0 n))).
Proof.
  intros Hbody.
  enough (H : forall m k l1, (k + m = n)%nat -> length l1 = k ->
              for_loop m (Z.of_nat k) body (l1 ++ repeat None m) =
              Value (l1 ++ map Some (map f (seq k m)))).
  { apply (H n 0%nat []); auto. }
  induction m as [|m IH]; intros k l1 Hkm Hl1; cbn [for_loop repeat seq map].
  - reflexivity.
  - rewrite Hbody; auto.
    2:{ rewrite repeat_length. lia. }
    cbn [bind]. replace (Z.of_nat k + 1) with (Z.of_nat (S k)) by lia.
    replace (l1 ++ Some (f k) :: repeat None m) with ((l1 ++ [Some (f k)]) ++ repeat None m)
      by (rewrite <- app_assoc; reflexivity).
    rewrite IH; [| lia | rewrite length_app; cbn; lia].
    rewrite <- app_assoc. reflexivity.
Qed.

Lemma relu_fmax (x : float) : Good.relu x = fmax (F32.of_int 0) x.
Proof. reflexivity. Qed.

Lemma fetch_map_Some (l : list float) (i : Z) (k : nat) :
  i = Z.of_nat k -> (k < length l)%nat ->
  fetch (map Some l) i = Value (nth k l S754_nan).
Proof.
  intros Hi Hk. unfold fetch.
  rewrite (load_nth _ _ k None Hi) by (rewrite length_map; exact Hk).
  cbn [bind]. rewrite (nth_indep _ None (Some S754_nan)) by (rewrite length_map; exact Hk).
  rewrite map_nth. reflexivity.
Qed.

(** A loop whose body computes score [k] into cell [k] and updates the
    running maximum. *)
Lemma for_loop_select (score : nat -> float) (body : Z -> selection -> result selection)
      (n : nat) :
  (forall k l1 l2 mv best,
      length l1 = k -> (length l1 + S (length l2) = n)%nat ->
      body (Z.of_nat k)
           {| sel_output := l1 ++ None :: l2; sel_maxValue := mv; sel_bestAction := best |} =
      if fgt (score k) mv
      then Value {| sel_output := l1 ++ Some (score k) :: l2; sel_maxValue := score k;
                    sel_bestAction := Z.of_nat k |}
      else Value {| sel_output := l1 ++ Some (score k) :: l2; sel_maxValue := mv;
                    sel_bestAction := best |}) ->
  forall mv best,
    for_loop n 0 body
      {| sel_output := repeat None n; sel_maxValue := mv; sel_bestAction := best |} =
    Value {| sel_output := map Some (map score (seq 0 n));
             sel_maxValue := fst (select_from (map score (seq 0 n)) 0 mv best);
             sel_bestAction := snd (select_from (map score (seq 0 n)) 0 mv best) |}.
Proof.
  intros Hbody.
  enough (H : forall m k l1 mv best, (k + m = n)%nat -> length l1 = k ->
              for_loop m (Z.of_nat k) body
                {| sel_output := l1 ++ repeat None m; sel_maxValue := mv;
                   sel_bestAction := best |} =
              Value {| sel_output := l1 ++ map Some (map score (seq k m));
                       sel_maxValue :=
                         fst (select_from (map score (seq k m)) (Z.of_nat k) mv best);
                       sel_bestAction :=
                         snd (select_from (map score (seq k m)) (Z.of_nat k) mv best) |}).
  { intros mv best. apply (H n 0%nat [] mv best); auto. }
  induction m as [|m IH]; intros k l1 mv best Hkm Hl1;
    cbn [for_loop repeat seq map select_from].
  - rewrite app_nil_r. reflexivity.
  - rewrite Hbody; auto.
    2:{ rewrite repeat_length. lia. }
    replace (Z.of_nat k + 1) with (Z.of_nat (S k)) by lia.
    destruct (fgt (score k) mv); cbn [bind];
      replace (l1 ++ Some (score k) :: repeat None m)
        with ((l1 ++ [Some (score k)]) ++ repeat None m)
        by (rewrite <- app_assoc; reflexivity);
      (rewrite IH; [| lia | rewrite length_app; cbn; lia]);
      rewrite <- app_assoc; reflexivity.
Qed.

Lemma hidden_layer_length (this : TwoWheelBotDQN) (x0 x1 : float) :
  length (hidden_layer this x0 x1) = 64%nat.
Proof. unfold hidden_layer. rewrite length_map, length_seq. reflexivity. Qed.

(** The frame of [getAction] at its return, in closed form. *)
Lemma getAction_frame_spec (this : TwoWheelBotDQN) (angle angularVelocity : float) :
  well_formed this ->
  let x0 := norm_angle angle in
  let x1 := norm_velocity angularVelocity in
  let hid := hidden_layer this x0 x1 in
  let scores := output_layer this hid in
  Good.getAction_frame this angle angularVelocity =
  Value {| input := [Some x0; Some x1];
           hidden := map Some hid;
           output := map Some scores;
           maxValue := fst (select_from scores 0 sentinel 0);
           bestAction := snd (select_from scores 0 sentinel 0) |}.
Proof.
  intros (Hwih & Hbh & Hwho & Hbo) x0 x1 hid scores.
  unfold INPUT_SIZE, HIDDEN_SIZE, OUTPUT_SIZE in Hwih, Hbh, Hwho, Hbo.
  unfold Good.getAction_frame.
  fold one32 minus_one32 sentinel. fold (norm_angle angle) (norm_velocity angularVelocity).
  fold x0 x1.
  (* the two normalized inputs *)
  change (repeat None (Z.to_nat INPUT_SIZE)) with ([] ++ None :: [@None float]).
  rewrite assign_at by reflexivity. cbn [bind app].
  change [Some x0; None] with ([Some x0] ++ None :: []).
  rewrite assign_at by reflexivity. cbn [bind app].
  (* the hidden layer *)
  unfold for_range at 1.
  change (Z.to_nat (HIDDEN_SIZE - 0)) with 64%nat.
  change (Z.to_nat HIDDEN_SIZE) with 64%nat.
  rewrite (for_loop_fill (hidden_unit this x0 x1)).
  2:{ intros k l1 l2 Hl1 Hlen. subst k.
      rewrite (load_nth (biasHidden this) _ (length l1) S754_nan eq_refl) by lia.
      cbn [bind]. rewrite assign_at by reflexivity. cbn [bind].
      unfold for_range. change (Z.to_nat (INPUT_SIZE - 0)) with 2%nat.
      cbn [for_loop bind].
      rewrite fetch_at by reflexivity. cbn [bind].
      change (fetch [Some x0; Some x1] 0) with (Value x0). cbn [bind].
      rewrite (load_nth (weightsInputHidden this) _ (0 * 64 + length l1) S754_nan)
        by (unfold HIDDEN_SIZE; lia).
      cbn [bind]. rewrite assign_at by reflexivity. cbn [bind].
      rewrite fetch_at by reflexivity. cbn [bind].
      change (fetch [Some x0; Some x1] (0 + 1)) with (Value x1). cbn [bind].
      rewrite (load_nth (weightsInputHidden this) _ (1 * 64 + length l1) S754_nan)
        by (unfold HIDDEN_SIZE; lia).
      cbn [bind]. rewrite assign_at by reflexivity. cbn [bind].
      rewrite fetch_at by reflexivity. cbn [bind].
      rewrite assign_at by reflexivity.
      rewrite relu_fmax. unfold hidden_unit, W_ih. reflexivity. }
  cbn [bind]. fold (hidden_layer this x0 x1). fold hid.
  (* the output layer and the running maximum *)
  unfold for_range at 1.
  change (Z.to_nat (OUTPUT_SIZE - 0)) with 3%nat.
  change (Z.to_nat OUTPUT_SIZE) with 3%nat.
  rewrite (for_loop_select (output_score this hid)).
  2:{ intros k l1 l2 mv best Hl1 Hlen. subst k. cbn [sel_output sel_maxValue sel_bestAction].
      rewrite (load_nth (biasOutput this) _ (length l1) S754_nan eq_refl) by lia.
      cbn [bind]. rewrite assign_at by reflexivity. cbn [bind].
      unfold for_range. change (Z.to_nat (HIDDEN_SIZE - 0)) with 64%nat.
      change 0 with (Z.of_nat 0) at 1.
      rewrite (for_loop_accumulate
                 (fun k => F32.mul (nth k hid S754_nan) (W_ho this k (length l1)))).
      2:{ intros k acc Hk.
          rewrite fetch_at by reflexivity. cbn [bind].
          rewrite (fetch_map_Some hid _ k eq_refl)
            by (unfold hid; rewrite hidden_layer_length; lia).
          cbn [bind].
          rewrite (load_nth (weightsHiddenOutput this) _ (k * 3 + length l1) S754_nan)
            by (unfold OUTPUT_SIZE; lia).
          cbn [bind]. rewrite assign_at by reflexivity. reflexivity. }
      cbn [bind]. rewrite fetch_at by reflexivity. cbn [bind].
      unfold output_score. reflexivity. }
  cbn [bind sel_output sel_maxValue sel_bestAction].
  reflexivity.
Qed.

(** ** Normalization of the two arguments *)

Lemma pi_3_eq : pi_3 = S754_finite false 4716158501352293 (-52).
Proof. reflexivity. Qed.

Lemma ten_eq : ten = S754_finite false 5629499534213120 (-49).
Proof. reflexivity. Qed.

Lemma is_nan_sign (x : spec_float) :
  match x with S754_nan => False | _ => True end -> is_nan x = false.
Proof. destruct x; cbn; tauto. Qed.

(** Dividing a number by a finite non-zero double and clamping the
    narrowed quotient gives a value in [-1, 1]. *)
Lemma normalize_bounded (x : float) (sy : bool) (my : positive) (ey : Z) :
  is_nan x = false ->
  bounded_by 1
    (Good.constrain
       (float_of_double (F64.div (double_of_float x) (S754_finite sy my ey)))
       minus_one32 one32) = true.
Proof.
  intros Hx.
  assert (H1 := SFconv_not_nan 53 1024 ltac:(lia) ltac:(lia) ltac:(lia) x Hx).
  assert (HX : is_nan (double_of_float x) = false).
  { unfold double_of_float, F64.prec, F64.emax.
    destruct (SFconv 53 1024 x); auto; contradiction. }
  assert (H2 := SFdiv_not_nan 53 1024 ltac:(lia) ltac:(lia) ltac:(lia) _ sy my ey HX).
  assert (H3 := SFconv_not_nan 24 128 ltac:(lia) ltac:(lia) ltac:(lia) _ H2).
  apply constrain_bounded.
  unfold float_of_double, F64.div, F32.prec, F32.emax, F64.prec, F64.emax.
  destruct (SFconv 24 128 _); auto. tauto.
Qed.

(** At or beyond a normal positive divisor [c] the normalized value is
    exactly [1.0], at or beyond [-c] it is exactly [-1.0]. *)
Lemma normalize_saturates (x : float) (mc : positive) (ec : Z) :
  Zpos (digits2_pos mc) = 53 -> -1074 < ec ->
  let c := S754_finite false mc ec in
  let v := Good.constrain (float_of_double (F64.div (double_of_float x) c))
             minus_one32 one32 in
  (fle c (double_of_float x) = true -> v = one32) /\
  (fle (double_of_float x) (SFopp c) = true -> v = minus_one32).
Proof.
  intros Hdc Hec c v.
  assert (Hmag : forall s, (s = false /\ fle c (double_of_float x) = true) \/
                           (s = true /\ fle (double_of_float x) (SFopp c) = true) ->
                           v = if s then minus_one32 else one32).
  { intros s Hs.
    assert (Hq : at_least_one 53 1024 (F64.div (double_of_float x) c) = true /\
                 sign_of (F64.div (double_of_float x) c) = s).
    { assert (Hx : is_nan x = false).
      { destruct x; auto. exfalso. destruct Hs as [[_ H] | [_ H]]; discriminate H. }
      assert (H1 := SFconv_not_nan 53 1024 ltac:(lia) ltac:(lia) ltac:(lia) x Hx).
      unfold double_of_float, F64.div, F64.prec, F64.emax, c in *.
      destruct (SFconv 53 1024 x) as [sX | sX | | sX M E]; try contradiction.
      - exfalso. destruct Hs as [[_ H] | [_ H]]; discriminate H.
      - destruct Hs as [[-> H] | [-> H]]; destruct sX; try discriminate H; auto.
      - destruct H1 as (_ & Hcan & _).
        assert (Hrel : sX = s /\ (ec < E \/ (ec = E /\ (mc <= M)%positive))).
        { destruct Hs as [[-> H] | [-> H]]; unfold fle, SFleb, SFcompare, SFopp in H;
            change (Pos.compare_cont Eq mc M) with (Pos.compare mc M) in H;
            change (Pos.compare_cont Eq M mc) with (Pos.compare M mc) in H;
            cbn [negb] in H; destruct sX; try discriminate H; split; auto.
          - destruct (Z.compare_spec ec E); try discriminate H; [right | left]; auto.
            split; auto. destruct (Pos.compare_spec mc M); try discriminate H; lia.
          - destruct (Z.compare_spec E ec); try discriminate H; [right | left]; auto.
            split; auto. destruct (Pos.compare_spec M mc); try discriminate H; lia. }
        destruct Hrel as [-> Hrel].
        assert (HdM : Zpos (digits2_pos M) = 53).
        { apply (canonical_digits 53 1024 ltac:(lia) ltac:(lia) ltac:(lia) M E Hcan).
          unfold emin. lia. }
        destruct (SFdiv_at_least_one 53 1024 ltac:(lia) ltac:(lia) ltac:(lia)
                    s false M mc E ec HdM Hdc Hrel) as [Ha Hsg].
        split; auto. rewrite Hsg. apply xorb_false_r. }
    destruct Hq as [Ha Hsg].
    destruct (SFconv_at_least_one 53 1024 24 128 _ ltac:(lia) ltac:(lia) ltac:(lia)
                ltac:(lia) ltac:(lia) ltac:(lia) Ha) as [Ha' Hsg'].
    unfold v, float_of_double, F32.prec, F32.emax.
    rewrite (constrain_at_least_one _ Ha'), Hsg', Hsg. reflexivity. }
  split; intros H.
  - apply (Hmag false). auto.
  - apply (Hmag true). auto.
Qed.

(** ** Magnitudes through the two layers *)

Lemma forallb_nth {A : Type} (p : A -> bool) (l : list A) (k : nat) (d : A) :
  forallb p l = true -> (k < length l)%nat -> p (nth k l d) = true.
Proof.
  intros H Hk. rewrite forallb_forall in H. apply H. now apply nth_In.
Qed.

Lemma norm_angle_bounded (angle : float) :
  is_nan angle = false -> bounded_by 1 (norm_angle angle) = true.
Proof.
  intros H. unfold norm_angle. change (F64.div M_PI (F64.of_int 3)) with pi_3.
  rewrite pi_3_eq. now apply normalize_bounded.
Qed.

Lemma norm_velocity_bounded (angularVelocity : float) :
  is_nan angularVelocity = false -> bounded_by 1 (norm_velocity angularVelocity) = true.
Proof.
  intros H. unfold norm_velocity. change (F64.of_int 10) with ten.
  rewrite ten_eq. now apply normalize_bounded.
Qed.

Lemma fmax_zero_bounded (N : Z) (x : float) :
  bounded_by N x = true -> bounded_by N (fmax (F32.of_int 0) x) = true.
Proof. intros H. unfold fmax. destruct (flt (F32.of_int 0) x); auto. Qed.

Lemma F32_mul_bounded (A B : Z) (x y : float) :
  0 <= A -> 0 <= B -> A * B < 16777216 ->
  bounded_by A x = true -> bounded_by B y = true ->
  bounded_by (A * B) (F32.mul x y) = true.
Proof.
  intros. apply (SFmul_bounded 24 128); auto; lia.
Qed.

Lemma F32_add_bounded (A B : Z) (x y : float) :
  0 <= A -> 0 <= B -> A + B < 16777216 ->
  bounded_by A x = true -> bounded_by B y = true ->
  bounded_by (A + B) (F32.add x y) = true.
Proof.
  intros. apply (SFadd_bounded 24 128); auto; lia.
Qed.

(** With inputs in [-1, 1] and parameters within 10, a hidden activation
    is within 10 + 10 + 10. *)
Lemma hidden_unit_bounded (this : TwoWheelBotDQN) (x0 x1 : float) (h : nat) :
  well_formed this -> tensors_within 10 this = true ->
  bounded_by 1 x0 = true -> bounded_by 1 x1 = true -> (h < 64)%nat ->
  bounded_by 30 (hidden_unit this x0 x1 h) = true.
Proof.
  intros (Hwih & Hbh & _ & _) Ht H0 H1 Hh.
  unfold INPUT_SIZE, HIDDEN_SIZE in *.
  unfold tensors_within in Ht. rewrite !andb_true_iff in Ht.
  destruct Ht as [[[Tw Tb] _] _].
  unfold hidden_unit, W_ih. apply fmax_zero_bounded.
  apply (F32_add_bounded 20 (1 * 10)); try lia.
  - apply (F32_add_bounded 10 (1 * 10)); try lia.
    + apply forallb_nth; auto; lia.
    + apply F32_mul_bounded; auto; try lia. apply forallb_nth; auto; lia.
  - apply F32_mul_bounded; auto; try lia. apply forallb_nth; auto; lia.
Qed.

Lemma fold_add_bounded (g : nat -> float) (B : Z) (l : list nat) :
  0 <= B ->
  (forall k, In k l -> bounded_by B (g k) = true) ->
  forall (K : Z) (acc : float),
    0 <= K -> K + B * Z.of_nat (length l) < 16777216 ->
    bounded_by K acc = true ->
    bounded_by (K + B * Z.of_nat (length l))
      (fold_left (fun acc k => F32.add acc (g k)) l acc) = true.
Proof.
  intros HB. induction l as [|k l IH]; intros Hg K acc HK Hlt Hacc; cbn [fold_left length].
  - replace (K + B * Z.of_nat 0) with K by lia. exact Hacc.
  - cbn [length] in Hlt.
    replace (K + B * Z.of_nat (S (length l))) with ((K + B) + B * Z.of_nat (length l)) by lia.
    apply IH; try lia.
    + intros j Hj. apply Hg. now right.
    + apply F32_add_bounded; auto; try lia. apply Hg. now left.
Qed.

(** With hidden activations within 30 and parameters within 10, a score
    is within 10 + 64 * 30 * 10. *)
Lemma output_score_bounded (this : TwoWheelBotDQN) (hid : list float) (o : nat) :
  well_formed this -> tensors_within 10 this = true ->
  length hid = 64%nat -> forallb (bounded_by 30) hid = true -> (o < 3)%nat ->
  bounded_by 19210 (output_score this hid o) = true.
Proof.
  intros (_ & _ & Hwho & Hbo) Ht Hlen Hhid Ho.
  unfold HIDDEN_SIZE, OUTPUT_SIZE in *.
  unfold tensors_within in Ht. rewrite !andb_true_iff in Ht.
  destruct Ht as [[_ Tw] Tb].
  unfold output_score.
  change 19210 with (10 + 300 * Z.of_nat (length (seq 0 64))).
  apply (fold_add_bounded (fun k => F32.mul (nth k hid S754_nan) (W_ho this k o))); try lia.
  - intros k Hk. apply in_seq in Hk.
    apply (F32_mul_bounded 30 10); try lia.
    + apply forallb_nth; auto; lia.
    + unfold W_ho. apply forallb_nth; auto; lia.
  - rewrite length_seq. lia.
  - apply forallb_nth; auto; lia.
Qed.

Lemma hidden_layer_bounded (this : TwoWheelBotDQN) (x0 x1 : float) :
  well_formed this -> tensors_within 10 this = true ->
  bounded_by 1 x0 = true -> bounded_by 1 x1 = true ->
  forallb (bounded_by 30) (hidden_layer this x0 x1) = true.
Proof.
  intros Hwf Ht H0 H1. apply forallb_forall. intros x Hx.
  unfold hidden_layer in Hx. apply in_map_iff in Hx. destruct Hx as (h & <- & Hh).
  apply in_seq in Hh. apply hidden_unit_bounded; auto. lia.
Qed.

Lemma output_layer_bounded (this : TwoWheelBotDQN) (x0 x1 : float) :
  well_formed this -> tensors_within 10 this = true ->
  bounded_by 1 x0 = true -> bounded_by 1 x1 = true ->
  forallb (bounded_by 19210) (output_layer this (hidden_layer this x0 x1)) = true.
Proof.
  intros Hwf Ht H0 H1. apply forallb_forall. intros x Hx.
  unfold output_layer in Hx. apply in_map_iff in Hx. destruct Hx as (o & <- & Ho).
  apply in_seq in Ho.
  apply output_score_bounded; auto using hidden_layer_length, hidden_layer_bounded; lia.
Qed.

(** A finite value with a non-positive exponent is above the sentinel. *)
Lemma bounded_above_sentinel (N : Z) (x : float) :
  bounded_by N x = true -> flt sentinel x = true.
Proof.
  destruct x as [s | s | | s m e]; try discriminate.
  - intros _. reflexivity.
  - intros H. apply bounded_by_finite in H. destruct H as [He _].
    change sentinel with (S754_finite true 9765625 10).
    unfold flt. rewrite SFltb_finite. destruct s; auto.
    apply orb_true_iff. left. apply Z.ltb_lt. lia.
Qed.

Lemma output_layer_length (this : TwoWheelBotDQN) (hid : list float) :
  length (output_layer this hid) = 3%nat.
Proof. unfold output_layer. rewrite length_map, length_seq. reflexivity. Qed.

Lemma finite32_not_nan (x : float) : finite32 x -> is_nan x = false.
Proof. intros [H _]. destruct x; auto; discriminate. Qed.

Lemma select_from_range (scores : list float) :
  forall (o : Z) (mv : float) (best : Z),
    snd (select_from scores o mv best) = best \/
    o <= snd (select_from scores o mv best) < o + Z.of_nat (length scores).
Proof.
  induction scores as [|s rest IH]; intros o mv best; cbn [select_from length].
  - left. reflexivity.
  - destruct (fgt s mv).
    + right. destruct (IH (o + 1) s o) as [-> | H]; lia.
    + destruct (IH (o + 1) mv best) as [-> | H]; [left; auto | right; lia].
Qed.

Lemma getAction_spec (this : TwoWheelBotDQN) (angle angularVelocity : float) :
  well_formed this ->
  Good.getAction this angle angularVelocity =
  Value (snd (select_from
                (output_layer this
                   (hidden_layer this (norm_angle angle) (norm_velocity angularVelocity)))
                0 sentinel 0)).
Proof.
  intros Hwf. unfold Good.getAction.
  rewrite (getAction_frame_spec this angle angularVelocity Hwf). reflexivity.
Qed.

Lemma feq_not_flt (x y : float) : feq x y = true -> flt x y = true -> False.
Proof.
  unfold feq, flt, SFeqb, SFltb. destruct (SFcompare x y) as [[| |]|]; discriminate.
Qed.

(** With parameters within 10 and arguments that are not NaN, every
    score is finite, within 19210 and above the sentinel, and the action
    is the lowest index of a maximal score. *)
Lemma getAction_argmax (this : TwoWheelBotDQN) (angle angularVelocity : float) :
  well_formed this -> tensors_within 10 this = true ->
  is_nan angle = false -> is_nan angularVelocity = false ->
  let scores := output_layer this
                  (hidden_layer this (norm_angle angle) (norm_velocity angularVelocity)) in
  forallb (bounded_by 19210) scores = true /\
  Forall (fun s => flt sentinel s = true) scores /\
  exists i, select_from scores 0 sentinel 0 = (nth i scores S754_nan, Z.of_nat i) /\
            first_argmax scores i.
Proof.
  intros Hwf Ht Ha Hv scores.
  assert (Hb : forallb (bounded_by 19210) scores = true).
  { apply output_layer_bounded; auto using norm_angle_bounded, norm_velocity_bounded. }
  assert (Hs : Forall (fun s => flt sentinel s = true) scores).
  { apply Forall_forall. intros s Hin. rewrite forallb_forall in Hb.
    apply (bounded_above_sentinel 19210). auto. }
  split; auto. split; auto.
  apply select_from_first_argmax.
  - apply Forall_forall. intros s Hin. rewrite forallb_forall in Hb.
    specialize (Hb s Hin). apply bounded_by_not_nan in Hb. destruct s; auto; discriminate.
  - reflexivity.
  - assert (Hl := output_layer_length this
                    (hidden_layer this (norm_angle angle) (norm_velocity angularVelocity))).
    fold scores in Hl. destruct scores as [|s0 rest]; [discriminate|].
    apply Exists_cons_hd. now inversion Hs.
Qed.

Lemma Good_bot_well_formed : well_formed Good.bot.
Proof. repeat split; vm_compute; reflexivity. Qed.

Lemma Good_bot_within : tensors_within 10 Good.bot = true.
Proof. vm_compute. reflexivity. Qed.

(** ** The call on a memory *)

Lemma store_at {A : Type} (l1 l2 : list A) (c x : A) (i : Z) :
  i = Z.of_nat (length l1) -> store (l1 ++ c :: l2) i x = Value (l1 ++ x :: l2).
Proof.
  intros ->. unfold store. rewrite length_app. cbn [length].
  destruct (Z.leb_spec 0 (Z.of_nat (length l1))); [|lia].
  destruct (Z.ltb_spec (Z.of_nat (length l1)) (Z.of_nat (length l1 + S (length l2)))); [|lia].
  cbn [andb]. rewrite Nat2Z.id, update_app. reflexivity.
Qed.

Lemma load_at {A : Type} (l1 l2 : list A) (x : A) (i : Z) :
  i = Z.of_nat (length l1) -> load (l1 ++ x :: l2) i = Value x.
Proof.
  intros Hi. rewrite (load_nth _ _ (length l1) x Hi) by (rewrite length_app; cbn; lia).
  rewrite app_nth2, Nat.sub_diag by lia. reflexivity.
Qed.

Lemma st_bind_value {A B : Type} (c : st A) (k : A -> st B) (m m' : memory) (a : A) :
  c m = Value (a, m') -> st_bind c k m = k a m'.
Proof. intros H. unfold st_bind. now rewrite H. Qed.

Lemma rd_value (a : array_id) (i : Z) (m : memory) (x : float) :
  load (get_array m a) i = Value x -> rd a i m = Value (x, m).
Proof. intros H. unfold rd. now rewrite H. Qed.

Lemma wr_value (a : array_id) (i : Z) (x : float) (m : memory) (l : list float) :
  store (get_array m a) i x = Value l -> wr a i x m = Value (tt, set_array m a l).
Proof. intros H. unfold wr. now rewrite H. Qed.

(** A loop whose body adds [g k] to the state sums the [g k] in order. *)
Lemma st_for_accumulate (g : nat -> float) (mk : float -> memory)
      (body : Z -> st unit) (n : nat) :
  forall (n0 : nat) (acc0 : float),
    (forall k acc, (n0 <= k < n0 + n)%nat ->
                   body (Z.of_nat k) (mk acc) = Value (tt, mk (F32.add acc (g k)))) ->
    st_for n (Z.of_nat n0) body (mk acc0) =
    Value (tt, mk (fold_left (fun acc k => F32.add acc (g k)) (seq n0 n) acc0)).
Proof.
  induction n as [|n IH]; intros n0 acc0 Hbody; cbn [st_for seq fold_left]; auto.
  rewrite (st_bind_value _ _ _ _ _ (Hbody n0 acc0 ltac:(lia))).
  replace (Z.of_nat n0 + 1) with (Z.of_nat (S n0)) by lia.
  apply IH. intros k acc Hk. apply Hbody. lia.
Qed.

(** A loop whose body gives element [k] the value [f k] fills the array,
    whatever it held. *)
Lemma st_for_fill (f : nat -> float) (mk : list float -> memory)
      (body : Z -> st unit) (n : nat) :
  (forall l1 c l2, (length l1 + S (length l2) = n)%nat ->
                   body (Z.of_nat (length l1)) (mk (l1 ++ c :: l2)) =
                   Value (tt, mk (l1 ++ f (length l1) :: l2))) ->
  forall g, length g = n ->
            st_for n 0 body (mk g) = Value (tt, mk (map f (seq 0 n))).
Proof.
  intros Hbody.
  enough (H : forall j l1 g, (length l1 + j = n)%nat -> length g = j ->
              st_for j (Z.of_nat (length l1)) body (mk (l1 ++ g)) =
              Value (tt, mk (l1 ++ map f (seq (length l1) j)))).
  { intros g Hg. apply (H n [] g); auto. }
  induction j as [|j IH]; intros l1 g Hl Hg; cbn [st_for seq map].
  - destruct g; [|discriminate]. reflexivity.
  - destruct g as [|c g]; [discriminate|].
    rewrite (st_bind_value _ _ _ _ _ (Hbody l1 c g ltac:(cbn in Hg; lia))).
    replace (Z.of_nat (length l1) + 1) with (Z.of_nat (length (l1 ++ [f (length l1)])))
      by (rewrite length_app; cbn; lia).
    replace (l1 ++ f (length l1) :: g) with ((l1 ++ [f (length l1)]) ++ g)
      by (rewrite <- app_assoc; reflexivity).
    rewrite IH; [| rewrite length_app; cbn; lia | cbn in Hg; lia].
    rewrite <- app_assoc, length_app. cbn [length app].
    replace (length l1 + 1)%nat with (S (length l1)) by lia. reflexivity.
Qed.

(** A loop whose body computes score [k] into element [k] and updates
    the running maximum. *)
Lemma st_for_select (score : nat -> float) (mk : list float -> float -> Z -> memory)
      (body : Z -> st unit) (n : nat) :
  (forall l1 c l2 mv best,
      (length l1 + S (length l2) = n)%nat ->
      body (Z.of_nat (length l1)) (mk (l1 ++ c :: l2) mv best) =
      Value (tt, if fgt (score (length l1)) mv
                 then mk (l1 ++ score (length l1) :: l2) (score (length l1))
                         (Z.of_nat (length l1))
                 else mk (l1 ++ score (length l1) :: l2) mv best)) ->
  forall g mv best,
    length g = n ->
    st_for n 0 body (mk g mv best) =
    Value (tt, mk (map score (seq 0 n))
                  (fst (select_from (map score (seq 0 n)) 0 mv best))
                  (snd (select_from (map score (seq 0 n)) 0 mv best))).
Proof.
  intros Hbody.
  enough (H : forall j l1 g mv best, (length l1 + j = n)%nat -> length g = j ->
              st_for j (Z.of_nat (length l1)) body (mk (l1 ++ g) mv best) =
              Value (tt, mk (l1 ++ map score (seq (length l1) j))
                            (fst (select_from (map score (seq (length l1) j))
                                    (Z.of_nat (length l1)) mv best))
                            (snd (select_from (map score (seq (length l1) j))
                                    (Z.of_nat (length l1)) mv best)))).
  { intros g mv best Hg. apply (H n [] g mv best); auto. }
  induction j as [|j IH]; intros l1 g mv best Hl Hg; cbn [st_for seq map select_from].
  - destruct g; [|discriminate]. reflexivity.
  - destruct g as [|c g]; [discriminate|].
    rewrite (st_bind_value _ _ _ _ _ (Hbody l1 c g mv best ltac:(cbn in Hg; lia))).
    assert (El : Z.of_nat (length l1) + 1 = Z.of_nat (length (l1 ++ [score (length l1)])))
      by (rewrite length_app; cbn; lia).
    assert (Es : S (length l1) = length (l1 ++ [score (length l1)]))
      by (rewrite length_app; cbn; lia).
    replace (l1 ++ score (length l1) :: g) with ((l1 ++ [score (length l1)]) ++ g)
      by (rewrite <- app_assoc; reflexivity).
    rewrite El, Es.
    destruct (fgt (score (length l1)) mv);
      (rewrite IH; [| rewrite length_app; cbn; lia | cbn in Hg; lia]);
      rewrite <- app_assoc; reflexivity.
Qed.

Lemma st_bind_assoc {A B C : Type} (c : st A) (k1 : A -> st B) (k2 : B -> st C)
      (m : memory) :
  st_bind (st_bind c k1) k2 m = st_bind c (fun a => st_bind (k1 a) k2) m.
Proof. unfold st_bind. destruct (c m) as [[a m'] | e]; reflexivity. Qed.

Ltac st_fields :=
  cbn [get_array set_array set_this m_this m_input m_hidden m_output m_maxValue
       m_bestAction].

(** One statement of a sequence: a read at a known index, a read or a
    write at the end of a known prefix, or a scalar. *)
Ltac st_rd k :=
  rewrite ?st_bind_assoc;
  erewrite st_bind_value
    by (apply rd_value; st_fields; apply (load_nth _ _ k S754_nan);
        [unfold HIDDEN_SIZE, OUTPUT_SIZE; lia | unfold float in *; lia]);
  cbv beta.

Ltac st_rd_at :=
  rewrite ?st_bind_assoc;
  erewrite st_bind_value by (apply rd_value; st_fields; apply load_at; reflexivity);
  cbv beta.

Ltac st_wr_at :=
  rewrite ?st_bind_assoc;
  erewrite st_bind_value by (apply wr_value; st_fields; apply store_at; reflexivity);
  cbv beta; st_fields.

Ltac st_scalar :=
  rewrite ?st_bind_assoc;
  erewrite st_bind_value by reflexivity; cbv beta; st_fields.

(** The call in closed form: the action and the memory it leaves depend
    on the memory before it through the object alone. *)
Lemma getAction_call_spec (m : memory) (angle angularVelocity : float) :
  memory_well_formed m ->
  getAction_call angle angularVelocity m =
  Value (call_result (m_this m) angle angularVelocity).
Proof.
  destruct m as [this inp hid0 out0 mv0 best0].
  intros ((Hwih & Hbh & Hwho & Hbo) & Hinp & Hhid & Hout).
  cbn [m_this m_input m_hidden m_output] in Hwih, Hbh, Hwho, Hbo, Hinp, Hhid, Hout.
  unfold INPUT_SIZE, HIDDEN_SIZE, OUTPUT_SIZE in Hwih, Hbh, Hwho, Hbo, Hinp, Hhid, Hout.
  cbn [m_this]. unfold call_result, getAction_call.
  fold one32 minus_one32 sentinel. fold (norm_angle angle) (norm_velocity angularVelocity).
  set (x0 := norm_angle angle). set (x1 := norm_velocity angularVelocity).
  clearbody x0 x1.
  set (hid := hidden_layer this x0 x1).
  set (scores := output_layer this hid).
  destruct inp as [|c0 [|c1 [|c2 inp]]]; try (cbn [length] in Hinp; lia).
  (* the two normalized inputs *)
  change [c0; c1] with ([] ++ c0 :: [c1]). st_wr_at. cbn [app].
  change [x0; c1] with ([x0] ++ c1 :: []). st_wr_at. cbn [app].
  (* the hidden layer *)
  unfold st_for_range at 1.
  change (Z.to_nat (HIDDEN_SIZE - 0)) with 64%nat.
  erewrite st_bind_value.
  2:{ refine (st_for_fill (hidden_unit this x0 x1)
                (fun l => {| m_this := this; m_input := [x0; x1]; m_hidden := l;
                             m_output := out0; m_maxValue := mv0; m_bestAction := best0 |})
                _ 64 _ hid0 _); [|lia].
      clear hid scores. intros l1 c l2 Hlen. cbv beta.
      st_rd (length l1). st_wr_at.
      unfold st_for_range. change (Z.to_nat (INPUT_SIZE - 0)) with 2%nat.
      cbn [st_for].
      st_rd_at.
      change [x0; x1] with ([] ++ x0 :: [x1]). st_rd_at. cbn [app].
      st_rd (0 * 64 + length l1)%nat. st_wr_at.
      st_rd_at.
      change [x0; x1] with ([x0] ++ x1 :: []). st_rd_at. cbn [app].
      st_rd (1 * 64 + length l1)%nat. st_wr_at.
      st_scalar.
      st_rd_at.
      erewrite wr_value by (st_fields; apply store_at; reflexivity).
      st_fields. rewrite relu_fmax. unfold hidden_unit, W_ih. reflexivity. }
  cbv beta.
  fold (hidden_layer this x0 x1). fold hid.
  assert (Hlh : length hid = 64%nat) by apply hidden_layer_length.
  clearbody hid.
  (* the scalars *)
  st_scalar. st_scalar.
  (* the output layer and the running maximum *)
  unfold st_for_range at 1.
  change (Z.to_nat (OUTPUT_SIZE - 0)) with 3%nat.
  erewrite st_bind_value.
  2:{ refine (st_for_select (output_score this hid)
                (fun l mv best => {| m_this := this; m_input := [x0; x1]; m_hidden := hid;
                                     m_output := l; m_maxValue := mv;
                                     m_bestAction := best |})
                _ 3 _ out0 sentinel 0 _); [|lia].
      clear scores. intros l1 c l2 mv best Hlen. cbv beta.
      st_rd (length l1). st_wr_at.
      unfold st_for_range. change (Z.to_nat (HIDDEN_SIZE - 0)) with 64%nat.
      erewrite st_bind_value.
      2:{ refine (st_for_accumulate
                    (fun k => F32.mul (nth k hid S754_nan) (W_ho this k (length l1)))
                    (fun acc => {| m_this := this; m_input := [x0; x1]; m_hidden := hid;
                                   m_output := l1 ++ acc :: l2; m_maxValue := mv;
                                   m_bestAction := best |})
                    _ 64 0 _ _).
          intros k acc Hk. cbv beta.
          st_rd_at. st_rd k. st_rd (k * 3 + length l1)%nat.
          erewrite wr_value by (st_fields; apply store_at; reflexivity).
          st_fields. reflexivity. }
      cbv beta.
      st_rd_at. st_scalar.
      unfold output_score.
      destruct (fgt _ mv); [st_scalar; reflexivity | reflexivity]. }
  cbv beta.
  fold (output_layer this hid). fold scores. clearbody scores.
  reflexivity.
Qed.

Lemma call_result_this (this : TwoWheelBotDQN) (angle angularVelocity : float) :
  m_this (snd (call_result this angle angularVelocity)) = this.
Proof. unfold call_result. cbv zeta. cbn [snd m_this]. reflexivity. Qed.

Lemma call_result_well_formed (this : TwoWheelBotDQN) (angle angularVelocity : float) :
  well_formed this -> memory_well_formed (snd (call_result this angle angularVelocity)).
Proof.
  intros Hwf. unfold call_result, memory_well_formed. cbv zeta.
  cbn [snd m_this m_input m_hidden m_output].
  split; [exact Hwf|]. split; [reflexivity|].
  rewrite hidden_layer_length, output_layer_length. split; reflexivity.
Qed.

Lemma call_result_action (this : TwoWheelBotDQN) (angle angularVelocity : float) :
  well_formed this ->
  Good.getAction this angle angularVelocity =
  Value (fst (call_result this angle angularVelocity)).
Proof.
  intros Hwf. rewrite (getAction_spec this angle angularVelocity Hwf).
  unfold call_result. cbv zeta. cbn [fst]. reflexivity.
Qed.

(** ** Properties of [getAction] and [getMotorTorque] *)

Lemma first_argmax_tie (scores : list float) (i : nat) :
  length scores = 3%nat -> first_argmax scores i ->
  feq (nth 0 scores S754_nan) (nth 2 scores S754_nan) = true ->
  fle (nth 1 scores S754_nan) (nth 0 scores S754_nan) = true ->
  i = 0%nat.
Proof.
  intros Hl (Hi & _ & Hbefore) Heq Hle.
  destruct i as [|[|[|i]]]; auto; [| | lia]; exfalso;
    specialize (Hbefore 0%nat ltac:(lia)).
  - unfold flt, fle, SFltb, SFleb in *.
    assert (Hc : SFcompare (nth 1 scores S754_nan) (nth 0 scores S754_nan) = Some Gt).
    { clear Hle. revert Hbefore. generalize (nth 0 scores S754_nan) (nth 1 scores S754_nan).
      intros a b H.
      assert (Ha : is_nan a = false) by (destruct a; auto; discriminate).
      assert (Hb : is_nan b = false) by (destruct a, b; auto; discriminate).
      destruct (SFcompare b a) as [[| |]|] eqn:E; auto; exfalso.
      - apply (flt_not_fle a b Ha Hb); unfold flt, fle, SFltb, SFleb; [exact H | now rewrite E].
      - apply (flt_not_fle a b Ha Hb); unfold flt, fle, SFltb, SFleb; [exact H | now rewrite E].
      - destruct a, b; discriminate. }
    rewrite Hc in Hle. discriminate.
  - exact (feq_not_flt _ _ Heq Hbefore).
Qed.

(** C1: for parameters within 10 (the shipped ones are) and every pair of
    finite arguments, [getAction] returns the index of a maximal output
    score; the index is found by the running maximum with strict [>]
    started at the sentinel [-1e10], so among equal maximal scores
    the lowest index is returned, and when the scores at indices 0 and
    2 are equal and maximal the result is 0. *)
Theorem getAction_returns_first_argmax
        (this : TwoWheelBotDQN) (angle angularVelocity : float) :
  well_formed this -> tensors_within 10 this = true ->
  finite32 angle -> finite32 angularVelocity ->
  exists (fr : frame) (scores : list float) (i : nat),
    Good.getAction_frame this angle angularVelocity = Value fr /\
    output fr = map Some scores /\ length scores = 3%nat /\
    (maxValue fr, bestAction fr) = select_from scores 0 sentinel 0 /\
    Good.getAction this angle angularVelocity = Value (Z.of_nat i) /\
    first_argmax scores i /\
    (feq (nth 0 scores S754_nan) (nth 2 scores S754_nan) = true ->
     fle (nth 1 scores S754_nan) (nth 0 scores S754_nan) = true ->
     i = 0%nat).
Proof.
  intros Hwf Ht Ha Hv.
  apply finite32_not_nan in Ha, Hv.
  pose proof (getAction_argmax this angle angularVelocity Hwf Ht Ha Hv) as H.
  pose proof (getAction_frame_spec this angle angularVelocity Hwf) as Hf.
  pose proof (getAction_spec this angle angularVelocity Hwf) as Hg.
  pose proof (output_layer_length this
                (hidden_layer this (norm_angle angle) (norm_velocity angularVelocity))) as Hl.
  cbv zeta in H, Hf.
  remember (output_layer this
              (hidden_layer this (norm_angle angle) (norm_velocity angularVelocity)))
    as scores eqn:Es.
  clear Es.
  destruct H as (_ & _ & i & Esel & Harg).
  rewrite Esel in Hf, Hg. cbn [fst snd] in Hf, Hg.
  eexists. exists scores, i.
  split; [exact Hf|]. cbn [output maxValue bestAction].
  split; [reflexivity|]. split; [exact Hl|]. split; [symmetry; exact Esel|].
  split; [exact Hg|]. split; [exact Harg|].
  intros Heq Hle. exact (first_argmax_tie scores i Hl Harg Heq Hle).
Qed.

Lemma getAction_returns_first_argmax_witness :
  exists (fr : frame) (scores : list float) (i : nat),
    Good.getAction_frame Good.bot (flit 50000) (flit (-200000)) = Value fr /\
    output fr = map Some scores /\ length scores = 3%nat /\
    (maxValue fr, bestAction fr) = select_from scores 0 sentinel 0 /\
    Good.getAction Good.bot (flit 50000) (flit (-200000)) = Value (Z.of_nat i) /\
    first_argmax scores i /\
    (feq (nth 0 scores S754_nan) (nth 2 scores S754_nan) = true ->
     fle (nth 1 scores S754_nan) (nth 0 scores S754_nan) = true ->
     i = 0%nat).
Proof.
  apply (getAction_returns_first_argmax Good.bot (flit 50000) (flit (-200000))).
  - repeat split; vm_compute; reflexivity.
  - vm_compute; reflexivity.
  - split; vm_compute; reflexivity.
  - split; vm_compute; reflexivity.
Defined.

Lemma hidden_layer_nth (this : TwoWheelBotDQN) (x0 x1 : float) (h : nat) :
  (h < 64)%nat -> nth h (hidden_layer this x0 x1) S754_nan = hidden_unit this x0 x1 h.
Proof.
  intros Hh. unfold hidden_layer.
  rewrite (nth_indep _ S754_nan (hidden_unit this x0 x1 0))
    by (rewrite length_map, length_seq; exact Hh).
  rewrite map_nth, seq_nth by exact Hh. reflexivity.
Qed.

Lemma output_layer_nth (this : TwoWheelBotDQN) (hid : list float) (o : nat) :
  (o < 3)%nat -> nth o (output_layer this hid) S754_nan = output_score this hid o.
Proof.
  intros Ho. unfold output_layer.
  rewrite (nth_indep _ S754_nan (output_score this hid 0))
    by (rewrite length_map, length_seq; exact Ho).
  rewrite map_nth, seq_nth by exact Ho. reflexivity.
Qed.

(** C2: the forward pass computes, for each of the 64 hidden units,
    [max(0, biasHidden[h] + input[0]*W_ih[0][h] + input[1]*W_ih[1][h])]
    summed bias first, then index 0, then index 1, and for each of the 3
    outputs [biasOutput[o] + sum over k of hidden[k]*W_ho[k][o]] with no
    activation. *)
Theorem getAction_forward_pass
        (this : TwoWheelBotDQN) (angle angularVelocity : float) :
  well_formed this ->
  exists (fr : frame) (x0 x1 : float) (hid scores : list float),
    Good.getAction_frame this angle angularVelocity = Value fr /\
    input fr = [Some x0; Some x1] /\
    hidden fr = map Some hid /\ length hid = 64%nat /\
    output fr = map Some scores /\ length scores = 3%nat /\
    (forall h, (h < 64)%nat ->
       nth h hid S754_nan =
       fmax (F32.of_int 0)
         (F32.add
            (F32.add (nth h (biasHidden this) S754_nan)
               (F32.mul x0 (nth (0 * 64 + h) (weightsInputHidden this) S754_nan)))
            (F32.mul x1 (nth (1 * 64 + h) (weightsInputHidden this) S754_nan)))) /\
    (forall o, (o < 3)%nat ->
       nth o scores S754_nan =
       fold_left
         (fun acc k =>
            F32.add acc
              (F32.mul (nth k hid S754_nan)
                 (nth (k * 3 + o) (weightsHiddenOutput this) S754_nan)))
         (seq 0 64) (nth o (biasOutput this) S754_nan)).
Proof.
  intros Hwf.
  pose proof (getAction_frame_spec this angle angularVelocity Hwf) as Hf.
  cbv zeta in Hf.
  eexists. exists (norm_angle angle), (norm_velocity angularVelocity).
  exists (hidden_layer this (norm_angle angle) (norm_velocity angularVelocity)).
  exists (output_layer this
            (hidden_layer this (norm_angle angle) (norm_velocity angularVelocity))).
  split; [exact Hf|]. cbn [input hidden output].
  split; [reflexivity|]. split; [reflexivity|]. split; [apply hidden_layer_length|].
  split; [reflexivity|]. split; [apply output_layer_length|]. split.
  - intros h Hh. rewrite hidden_layer_nth by exact Hh.
    unfold hidden_unit, W_ih. reflexivity.
  - intros o Ho. rewrite output_layer_nth by exact Ho.
    unfold output_score, W_ho. reflexivity.
Qed.

Lemma getAction_forward_pass_witness :
  exists (fr : frame) (x0 x1 : float) (hid scores : list float),
    Good.getAction_frame Good.bot (flit 50000) (flit (-200000)) = Value fr /\
    input fr = [Some x0; Some x1] /\
    hidden fr = map Some hid /\ length hid = 64%nat /\
    output fr = map Some scores /\ length scores = 3%nat /\
    (forall h, (h < 64)%nat ->
       nth h hid S754_nan =
       fmax (F32.of_int 0)
         (F32.add
            (F32.add (nth h (biasHidden Good.bot) S754_nan)
               (F32.mul x0 (nth (0 * 64 + h) (weightsInputHidden Good.bot) S754_nan)))
            (F32.mul x1 (nth (1 * 64 + h) (weightsInputHidden Good.bot) S754_nan)))) /\
    (forall o, (o < 3)%nat ->
       nth o scores S754_nan =
       fold_left
         (fun acc k =>
            F32.add acc
              (F32.mul (nth k hid S754_nan)
                 (nth (k * 3 + o) (weightsHiddenOutput Good.bot) S754_nan)))
         (seq 0 64) (nth o (biasOutput Good.bot) S754_nan)).
Proof.
  apply (getAction_forward_pass Good.bot (flit 50000) (flit (-200000))).
  repeat split; vm_compute; reflexivity.
Defined.

Lemma feq_finite_eq (x : spec_float) (s : bool) (m : positive) (e : Z) :
  feq x (S754_finite s m e) = true -> x = S754_finite s m e.
Proof.
  destruct x as [sx | sx | | sx mx ex]; unfold feq, SFeqb, SFcompare;
    try destruct sx; try destruct s; try discriminate;
    change (Pos.compare_cont Eq mx m) with (Pos.compare mx m);
    destruct (Z.compare_spec ex e); try discriminate;
    destruct (Pos.compare_spec mx m); try discriminate; intros _; congruence.
Qed.

Lemma flt_is_nan (x y : spec_float) :
  flt x y = true -> is_nan x = false /\ is_nan y = false.
Proof. destruct x, y; try discriminate; auto. Qed.

(** [constrain] with the bounds [-1.0] and [1.0] saturates. *)
Lemma constrain_saturating (value : float) :
  (flt value minus_one32 = true -> Good.constrain value minus_one32 one32 = minus_one32) /\
  (fgt value one32 = true -> Good.constrain value minus_one32 one32 = one32) /\
  (flt value minus_one32 = false -> fgt value one32 = false ->
   Good.constrain value minus_one32 one32 = value) /\
  (feq value minus_one32 = true \/ feq value one32 = true ->
   Good.constrain value minus_one32 one32 = value).
Proof.
  unfold Good.constrain. repeat split.
  - intros ->. reflexivity.
  - intros Hgt. destruct (flt value minus_one32) eqn:Hlt.
    + exfalso. destruct (flt_is_nan _ _ Hlt) as [Hv _].
      assert (H : flt one32 minus_one32 = true)
        by (apply flt_trans with value; auto).
      discriminate H.
    + now rewrite Hgt.
  - intros -> ->. reflexivity.
  - intros [H | H]; rewrite ?minus_one32_eq, ?one32_eq in H;
      apply feq_finite_eq in H; rewrite H; reflexivity.
Qed.

(** C3: [getAction] stores [constrain(angle / (M_PI / 3), -1.0, 1.0)] and
    [constrain(angularVelocity / 10.0, -1.0, 1.0)] as its two inputs;
    [constrain] saturates (below [-1.0] gives [-1.0], above [1.0] gives
    [1.0], a value at a bound is returned unchanged); an angle at or
    beyond [M_PI / 3] is normalized to exactly [1.0] whatever its
    magnitude, at or beyond [-(M_PI / 3)] to exactly [-1.0], and the
    angular velocity likewise at 10.0 and -10.0. *)
Theorem getAction_normalization
        (this : TwoWheelBotDQN) (angle angularVelocity : float) :
  well_formed this ->
  exists (fr : frame) (x0 x1 : float),
    Good.getAction_frame this angle angularVelocity = Value fr /\
    input fr = [Some x0; Some x1] /\
    x0 = Good.constrain
           (float_of_double (F64.div (double_of_float angle) (F64.div M_PI (F64.of_int 3))))
           (float_of_double (SFopp (F64.of_int 1))) (float_of_double (F64.of_int 1)) /\
    x1 = Good.constrain
           (float_of_double (F64.div (double_of_float angularVelocity) (F64.of_int 10)))
           (float_of_double (SFopp (F64.of_int 1))) (float_of_double (F64.of_int 1)) /\
    (forall value : float,
        (flt value minus_one32 = true ->
         Good.constrain value minus_one32 one32 = minus_one32) /\
        (fgt value one32 = true -> Good.constrain value minus_one32 one32 = one32) /\
        (flt value minus_one32 = false -> fgt value one32 = false ->
         Good.constrain value minus_one32 one32 = value) /\
        (feq value minus_one32 = true \/ feq value one32 = true ->
         Good.constrain value minus_one32 one32 = value)) /\
    (fle pi_3 (double_of_float angle) = true -> x0 = one32) /\
    (fle (double_of_float angle) (SFopp pi_3) = true -> x0 = minus_one32) /\
    (fle ten (double_of_float angularVelocity) = true -> x1 = one32) /\
    (fle (double_of_float angularVelocity) (SFopp ten) = true -> x1 = minus_one32).
Proof.
  intros Hwf.
  pose proof (getAction_frame_spec this angle angularVelocity Hwf) as Hf.
  cbv zeta in Hf.
  eexists. exists (norm_angle angle), (norm_velocity angularVelocity).
  split; [exact Hf|]. cbn [input].
  split; [reflexivity|]. split; [reflexivity|]. split; [reflexivity|].
  split; [exact constrain_saturating|].
  pose proof (normalize_saturates angle 4716158501352293 (-52) eq_refl eq_refl) as Ha.
  pose proof (normalize_saturates angularVelocity 5629499534213120 (-49) eq_refl eq_refl)
    as Hv.
  cbv zeta in Ha, Hv. rewrite <- pi_3_eq in Ha. rewrite <- ten_eq in Hv.
  destruct Ha as [Ha1 Ha2], Hv as [Hv1 Hv2].
  repeat split; assumption.
Qed.

Lemma getAction_normalization_witness :
  exists fr : frame,
    Good.getAction_frame Good.bot (flit 2000000) (flit (-15000000)) = Value fr /\
    input fr = [Some one32; Some minus_one32].
Proof.
  destruct (getAction_normalization Good.bot (flit 2000000) (flit (-15000000)))
    as (fr & x0 & x1 & Hf & Hin & _ & _ & _ & Ha & _ & _ & Hv).
  - repeat split; vm_compute; reflexivity.
  - exists fr. split; [exact Hf|].
    rewrite Hin, Ha, Hv; [reflexivity | vm_compute; reflexivity | vm_compute; reflexivity].
Defined.

(** C4: for an action index in {0, 1, 2} [getMotorTorque] returns
    [{-1.0, 0.0, 1.0}[action]]; whatever it returns is one of these three
    values; the torque of BRAKE (index 1) is 0.0 for every object, whatever
    its parameters. *)
Theorem getMotorTorque_table (this : TwoWheelBotDQN) (action : Z) :
  0 <= action <= 2 ->
  Good.getMotorTorque this action =
    Value (nth (Z.to_nat action) [minus_one32; zero32; one32] S754_nan) /\
  (forall (a : Z) (t : float),
      Good.getMotorTorque this a = Value t ->
      t = minus_one32 \/ t = zero32 \/ t = one32) /\
  Good.getMotorTorque this 1 = Value zero32.
Proof.
  intros Ha. split; [|split].
  - assert (H : action = 0 \/ action = 1 \/ action = 2) by lia.
    destruct H as [-> | [-> | ->]]; reflexivity.
  - intros a t. unfold Good.getMotorTorque, load.
    destruct (a <? 0); [discriminate|].
    destruct (Z.to_nat a) as [|[|[|n]]]; cbn [nth_error]; intros H.
    + left. now injection H as <-.
    + right; left. now injection H as <-.
    + right; right. now injection H as <-.
    + destruct n; discriminate.
  - reflexivity.
Qed.

Lemma getMotorTorque_table_witness :
  Good.getMotorTorque Good.bot 2 =
    Value (nth (Z.to_nat 2) [minus_one32; zero32; one32] S754_nan) /\
  (forall (a : Z) (t : float),
      Good.getMotorTorque Good.bot a = Value t ->
      t = minus_one32 \/ t = zero32 \/ t = one32) /\
  Good.getMotorTorque Good.bot 1 = Value zero32.
Proof. apply (getMotorTorque_table Good.bot 2). lia. Defined.

(** C5: for a well-formed object [getAction] returns normally, with an
    action index in {0, 1, 2}, for every pair of arguments: no array
    access is out of range and no local is read before it is written. *)
Theorem getAction_total (this : TwoWheelBotDQN) (angle angularVelocity : float) :
  well_formed this ->
  exists i : Z,
    Good.getAction this angle angularVelocity = Value i /\ (i = 0 \/ i = 1 \/ i = 2).
Proof.
  intros Hwf.
  pose proof (getAction_spec this angle angularVelocity Hwf) as Hg.
  pose proof (output_layer_length this
                (hidden_layer this (norm_angle angle) (norm_velocity angularVelocity))) as Hl.
  remember (output_layer this
              (hidden_layer this (norm_angle angle) (norm_velocity angularVelocity)))
    as scores eqn:Es.
  clear Es.
  exists (snd (select_from scores 0 sentinel 0)). split; [exact Hg|].
  destruct (select_from_range scores 0 sentinel 0) as [-> | H]; [auto|].
  rewrite Hl in H. lia.
Qed.

Lemma getAction_total_witness :
  exists i : Z,
    Good.getAction Good.bot (flit 50000) (flit (-200000)) = Value i /\
    (i = 0 \/ i = 1 \/ i = 2).
Proof.
  apply (getAction_total Good.bot (flit 50000) (flit (-200000))).
  repeat split; vm_compute; reflexivity.
Defined.

(** C7: with the object (the four tensors) as an argument, [getAction]
    and [getMotorTorque] of the three files are the same functions; the
    files differ in the tensors they ship. *)
Theorem three_files_one_engine :
  (forall (this : TwoWheelBotDQN) (angle angularVelocity : float),
      Good.getAction_frame this angle angularVelocity =
        Great.getAction_frame this angle angularVelocity /\
      Good.getAction_frame this angle angularVelocity =
        Okayish.getAction_frame this angle angularVelocity /\
      Good.getAction this angle angularVelocity =
        Great.getAction this angle angularVelocity /\
      Good.getAction this angle angularVelocity =
        Okayish.getAction this angle angularVelocity) /\
  (forall (this : TwoWheelBotDQN) (action : Z),
      Good.getMotorTorque this action = Great.getMotorTorque this action /\
      Good.getMotorTorque this action = Okayish.getMotorTorque this action) /\
  (forall x : float, Good.relu x = Great.relu x /\ Good.relu x = Okayish.relu x) /\
  (forall value min max : float,
      Good.constrain value min max = Great.constrain value min max /\
      Good.constrain value min max = Okayish.constrain value min max) /\
  Good.bot <> Great.bot /\ Good.bot <> Okayish.bot /\ Great.bot <> Okayish.bot.
Proof.
  assert (Hfr1 : forall this a v, Good.getAction_frame this a v = Great.getAction_frame this a v).
  { intros. unfold Good.getAction_frame, Great.getAction_frame,
      Good.relu, Great.relu, Good.constrain, Great.constrain. reflexivity. }
  assert (Hfr2 : forall this a v,
             Good.getAction_frame this a v = Okayish.getAction_frame this a v).
  { intros. unfold Good.getAction_frame, Okayish.getAction_frame,
      Good.relu, Okayish.relu, Good.constrain, Okayish.constrain. reflexivity. }
  split; [|split; [|split; [|split; [|split; [|split]]]]].
  - intros this a v.
    split; [apply Hfr1|]. split; [apply Hfr2|]. split.
    + unfold Good.getAction, Great.getAction. now rewrite Hfr1.
    + unfold Good.getAction, Okayish.getAction. now rewrite Hfr2.
  - intros this action. split; reflexivity.
  - intros x. split; reflexivity.
  - intros value min max. split; reflexivity.
  - intros H. apply (f_equal biasOutput) in H. vm_compute in H. discriminate H.
  - intros H. apply (f_equal biasOutput) in H. vm_compute in H. discriminate H.
  - intros H. apply (f_equal biasOutput) in H. vm_compute in H. discriminate H.
Qed.

(** C8: for a given object [getAction] is deterministic and leaves no
    trace.  Run on a memory that holds the object and whatever earlier
    calls left in the places of the locals, the call returns an action;
    run on any other memory holding the same object, or run again on the
    memory it has just left, it returns the same action and ends in the
    same memory.  The four tensors are what they were before the call: the
    only stores of the body go to [input], [hidden], [output], [maxValue]
    and [bestAction], which the call owns and assigns before it reads
    them. *)
Theorem getAction_deterministic
        (m1 m2 : memory) (angle angularVelocity : float) :
  memory_well_formed m1 -> memory_well_formed m2 ->
  m_this m1 = m_this m2 ->
  exists (a : Z) (m' : memory),
    getAction_call angle angularVelocity m1 = Value (a, m') /\
    getAction_call angle angularVelocity m2 = Value (a, m') /\
    getAction_call angle angularVelocity m' = Value (a, m') /\
    m_this m' = m_this m1 /\
    Good.getAction (m_this m1) angle angularVelocity = Value a.
Proof.
  intros H1 H2 E.
  pose proof (getAction_call_spec m1 angle angularVelocity H1) as C1.
  pose proof (getAction_call_spec m2 angle angularVelocity H2) as C2.
  rewrite <- E in C2.
  pose proof (call_result_this (m_this m1) angle angularVelocity) as Ht.
  pose proof (call_result_well_formed (m_this m1) angle angularVelocity (proj1 H1)) as Hw.
  pose proof (call_result_action (m_this m1) angle angularVelocity (proj1 H1)) as Ha.
  remember (call_result (m_this m1) angle angularVelocity) as r eqn:Er.
  destruct r as [a m']. cbn [fst snd] in Ht, Hw, Ha.
  exists a, m'.
  split; [exact C1|]. split; [exact C2|]. split; [|split; [exact Ht | exact Ha]].
  rewrite (getAction_call_spec m' angle angularVelocity Hw), Ht, <- Er. reflexivity.
Qed.

Lemma getAction_deterministic_witness :
  exists (a : Z) (m' : memory),
    getAction_call (flit 50000) (flit (-200000)) (stale_memory Good.bot S754_nan 7) =
      Value (a, m') /\
    getAction_call (flit 50000) (flit (-200000))
                   (stale_memory Good.bot (flit 1000000) (-3)) = Value (a, m') /\
    getAction_call (flit 50000) (flit (-200000)) m' = Value (a, m') /\
    m_this m' = m_this (stale_memory Good.bot S754_nan 7) /\
    Good.getAction (m_this (stale_memory Good.bot S754_nan 7))
                   (flit 50000) (flit (-200000)) = Value a.
Proof.
  apply (getAction_deterministic (stale_memory Good.bot S754_nan 7)
           (stale_memory Good.bot (flit 1000000) (-3)) (flit 50000) (flit (-200000))).
  - repeat split; vm_compute; reflexivity.
  - repeat split; vm_compute; reflexivity.
  - reflexivity.
Defined.

(** C9: for the shipped tensors, whose weights and biases all have
    magnitude at most 10, and every pair of finite arguments, each of the
    three scores is finite, of magnitude at most 10 + 64 * 30 * 10 = 19210
    and strictly above the sentinel [-1e10]; the running maximum ends on a
    score and the action returned is an argmax of the three scores. *)
Theorem shipped_scores_above_sentinel (angle angularVelocity : float) :
  finite32 angle -> finite32 angularVelocity ->
  tensors_within 10 Good.bot = true /\
  exists (fr : frame) (scores : list float) (i : nat),
    Good.getAction_frame Good.bot angle angularVelocity = Value fr /\
    output fr = map Some scores /\ length scores = 3%nat /\
    Forall (fun s => flt sentinel s = true /\ bounded_by 19210 s = true) scores /\
    Good.getAction Good.bot angle angularVelocity = Value (Z.of_nat i) /\
    maxValue fr = nth i scores S754_nan /\
    first_argmax scores i.
Proof.
  intros Ha Hv. apply finite32_not_nan in Ha, Hv.
  split; [exact Good_bot_within|].
  pose proof (getAction_argmax Good.bot angle angularVelocity
                Good_bot_well_formed Good_bot_within Ha Hv) as H.
  pose proof (getAction_frame_spec Good.bot angle angularVelocity Good_bot_well_formed) as Hf.
  pose proof (getAction_spec Good.bot angle angularVelocity Good_bot_well_formed) as Hg.
  pose proof (output_layer_length Good.bot
                (hidden_layer Good.bot (norm_angle angle) (norm_velocity angularVelocity)))
    as Hl.
  cbv zeta in H, Hf.
  remember (output_layer Good.bot
              (hidden_layer Good.bot (norm_angle angle) (norm_velocity angularVelocity)))
    as scores eqn:Es.
  clear Es.
  destruct H as (Hb & Hs & i & Esel & Harg).
  rewrite Esel in Hf, Hg. cbn [fst snd] in Hf, Hg.
  eexists. exists scores, i.
  split; [exact Hf|]. cbn [output maxValue].
  split; [reflexivity|]. split; [exact Hl|]. split.
  { apply Forall_forall. intros s Hin. rewrite Forall_forall in Hs.
    rewrite forallb_forall in Hb. auto. }
  split; [exact Hg|]. split; [reflexivity | exact Harg].
Qed.

Lemma shipped_scores_above_sentinel_witness :
  tensors_within 10 Good.bot = true /\
  exists (fr : frame) (scores : list float) (i : nat),
    Good.getAction_frame Good.bot (flit 50000) (flit (-200000)) = Value fr /\
    output fr = map Some scores /\ length scores = 3%nat /\
    Forall (fun s => flt sentinel s = true /\ bounded_by 19210 s = true) scores /\
    Good.getAction Good.bot (flit 50000) (flit (-200000)) = Value (Z.of_nat i) /\
    maxValue fr = nth i scores S754_nan /\
    first_argmax scores i.
Proof.
  apply (shipped_scores_above_sentinel (flit 50000) (flit (-200000))).
  - split; vm_compute; reflexivity.
  - split; vm_compute; reflexivity.
Defined.

Lemma relu_spec (x : float) :
  fle zero32 (Good.relu x) = true /\
  (fgt x zero32 = true -> Good.relu x = x) /\
  (fgt x zero32 = false -> Good.relu x = zero32).
Proof.
  unfold Good.relu. fold zero32. repeat split.
  - unfold fgt, fle, SFltb, SFleb.
    destruct (SFcompare zero32 x) as [[| |]|] eqn:E; try reflexivity. now rewrite E.
  - intros ->. reflexivity.
  - intros ->. reflexivity.
Qed.

(** C10: [relu(x)] is [x] when [x > 0] and [0] otherwise, hence never
    negative; in every call of [getAction] the 64 hidden activations that
    feed the output layer are greater than or equal to 0. *)
Theorem relu_nonnegative (this : TwoWheelBotDQN) (angle angularVelocity : float) :
  well_formed this ->
  (forall x : float,
      fle zero32 (Good.relu x) = true /\
      (fgt x zero32 = true -> Good.relu x = x) /\
      (fgt x zero32 = false -> Good.relu x = zero32)) /\
  exists (fr : frame) (hid : list float),
    Good.getAction_frame this angle angularVelocity = Value fr /\
    hidden fr = map Some hid /\ length hid = 64%nat /\
    Forall (fun y => fle zero32 y = true) hid.
Proof.
  intros Hwf. split; [exact relu_spec|].
  pose proof (getAction_frame_spec this angle angularVelocity Hwf) as Hf.
  cbv zeta in Hf.
  eexists. exists (hidden_layer this (norm_angle angle) (norm_velocity angularVelocity)).
  split; [exact Hf|]. cbn [hidden].
  split; [reflexivity|]. split; [apply hidden_layer_length|].
  apply Forall_forall. intros y Hy. unfold hidden_layer in Hy.
  apply in_map_iff in Hy. destruct Hy as (h & <- & _).
  unfold hidden_unit. rewrite <- relu_fmax. apply relu_spec.
Qed.

Lemma relu_nonnegative_witness :
  (forall x : float,
      fle zero32 (Good.relu x) = true /\
      (fgt x zero32 = true -> Good.relu x = x) /\
      (fgt x zero32 = false -> Good.relu x = zero32)) /\
  exists (fr : frame) (hid : list float),
    Good.getAction_frame Good.bot (flit 50000) (flit (-200000)) = Value fr /\
    hidden fr = map Some hid /\ length hid = 64%nat /\
    Forall (fun y => fle zero32 y = true) hid.
Proof.
  apply (relu_nonnegative Good.bot (flit 50000) (flit (-200000))).
  repeat split; vm_compute; reflexivity.
Defined.

(** ** Further properties of the engine *)

(** X1: the action [getAction] returns is always a valid index for
    [getMotorTorque]: the usage sequence of the file never faults, and the
    torque is the action index minus one, i.e. -1.0, 0.0 or 1.0. *)
Theorem torque_of_chosen_action
        (this : TwoWheelBotDQN) (angle angularVelocity : float) :
  well_formed this ->
  exists (action : Z) (torque : float),
    Good.getAction this angle angularVelocity = Value action /\
    Good.getMotorTorque this action = Value torque /\
    torque = F32.of_int (action - 1) /\
    (torque = minus_one32 \/ torque = zero32 \/ torque = one32).
Proof.
  intros Hwf.
  pose proof (getAction_spec this angle angularVelocity Hwf) as Hg.
  pose proof (output_layer_length this
                (hidden_layer this (norm_angle angle) (norm_velocity angularVelocity))) as Hl.
  remember (output_layer this
              (hidden_layer this (norm_angle angle) (norm_velocity angularVelocity)))
    as scores eqn:Es.
  clear Es.
  assert (Hi : snd (select_from scores 0 sentinel 0) = 0 \/
               snd (select_from scores 0 sentinel 0) = 1 \/
               snd (select_from scores 0 sentinel 0) = 2).
  { destruct (select_from_range scores 0 sentinel 0) as [-> | H]; [auto|].
    rewrite Hl in H. lia. }
  exists (snd (select_from scores 0 sentinel 0)).
  destruct Hi as [E | [E | E]]; rewrite E in *.
  - exists minus_one32. split; [exact Hg|]. repeat split; auto; reflexivity.
  - exists zero32. split; [exact Hg|]. repeat split; auto; reflexivity.
  - exists one32. split; [exact Hg|]. repeat split; auto; reflexivity.
Qed.

Lemma torque_of_chosen_action_witness :
  exists (action : Z) (torque : float),
    Good.getAction Good.bot (flit 50000) (flit (-200000)) = Value action /\
    Good.getMotorTorque Good.bot action = Value torque /\
    torque = F32.of_int (action - 1) /\
    (torque = minus_one32 \/ torque = zero32 \/ torque = one32).
Proof.
  apply (torque_of_chosen_action Good.bot (flit 50000) (flit (-200000))).
  repeat split; vm_compute; reflexivity.
Defined.

Lemma select_from_none (scores : list float) :
  forall (o : Z) (mv : float) (best : Z),
    Forall (fun s => fgt s mv = false) scores ->
    select_from scores o mv best = (mv, best).
Proof.
  induction scores as [|s rest IH]; intros o mv best H; cbn [select_from]; auto.
  inversion H as [|? ? Hs Hrest]; subst. rewrite Hs. now apply IH.
Qed.

(** X2: when no score exceeds the sentinel [-1e10] (every score is a
    NaN or at most [-1e10]) [getAction] returns 0, the initial value of
    [bestAction], whichever score is the largest. *)
Theorem getAction_default_action
        (this : TwoWheelBotDQN) (angle angularVelocity : float) :
  well_formed this ->
  Forall (fun s => fgt s sentinel = false)
    (output_layer this
       (hidden_layer this (norm_angle angle) (norm_velocity angularVelocity))) ->
  exists fr : frame,
    Good.getAction_frame this angle angularVelocity = Value fr /\
    output fr =
      map Some (output_layer this
                  (hidden_layer this (norm_angle angle) (norm_velocity angularVelocity))) /\
    maxValue fr = sentinel /\ bestAction fr = 0 /\
    Good.getAction this angle angularVelocity = Value 0.
Proof.
  intros Hwf Hall.
  pose proof (getAction_frame_spec this angle angularVelocity Hwf) as Hf.
  pose proof (getAction_spec this angle angularVelocity Hwf) as Hg.
  cbv zeta in Hf.
  rewrite (select_from_none _ 0 sentinel 0 Hall) in Hf, Hg. cbn [fst snd] in Hf, Hg.
  eexists. split; [exact Hf|]. cbn [output maxValue bestAction]. auto.
Qed.

Lemma getAction_default_action_witness :
  exists fr : frame,
    Good.getAction_frame
      (biased_bot (F32.of_int (-30000000000)) (F32.of_int (-20000000000))
                  (F32.of_int (-25000000000)))
      (flit 50000) (flit (-200000)) = Value fr /\
    output fr =
      map Some [F32.of_int (-30000000000); F32.of_int (-20000000000);
                F32.of_int (-25000000000)] /\
    maxValue fr = sentinel /\ bestAction fr = 0.
Proof.
  destruct (getAction_default_action
              (biased_bot (F32.of_int (-30000000000)) (F32.of_int (-20000000000))
                          (F32.of_int (-25000000000)))
              (flit 50000) (flit (-200000)))
    as (fr & Hf & Ho & Hm & Hb & _).
  - repeat split; vm_compute; reflexivity.
  - vm_compute. repeat constructor.
  - exists fr. split; [exact Hf|]. split; [|split; assumption].
    rewrite Ho. vm_compute. reflexivity.
Defined.

Lemma map_nth_seq {A : Type} (l : list A) (d : A) :
  map (fun k => nth k l d) (seq 0 (length l)) = l.
Proof.
  apply (nth_ext _ _ d d).
  - now rewrite length_map, length_seq.
  - intros n Hn. rewrite length_map, length_seq in Hn.
    rewrite (nth_indep _ d ((fun k => nth k l d) 0%nat))
      by (now rewrite length_map, length_seq).
    rewrite (map_nth (fun k => nth k l d)), seq_nth by exact Hn. reflexivity.
Qed.

Lemma is_nan_true (x : spec_float) : is_nan x = true -> x = S754_nan.
Proof. destruct x; try discriminate; reflexivity. Qed.

(** A NaN input makes the pre-activation a NaN, which [relu] maps to 0. *)
Lemma hidden_unit_nan (this : TwoWheelBotDQN) (x0 x1 : float) (h : nat) :
  is_nan x0 = true \/ is_nan x1 = true -> hidden_unit this x0 x1 h = zero32.
Proof.
  unfold hidden_unit.
  generalize (nth h (biasHidden this) S754_nan) (W_ih this 0 h) (W_ih this 1 h).
  intros b w0 w1 [H | H]; apply is_nan_true in H; subst.
  - replace (F32.add b (F32.mul S754_nan w0)) with S754_nan by (destruct b; reflexivity).
    reflexivity.
  - replace (F32.mul S754_nan w1) with S754_nan by reflexivity.
    replace (F32.add (F32.add b (F32.mul x0 w0)) S754_nan) with S754_nan
      by (destruct (F32.add b (F32.mul x0 w0)); reflexivity).
    reflexivity.
Qed.

Lemma fold_add_zeros (g : nat -> float) (l : list nat) (acc : float) :
  is_nonzero_finite acc = true ->
  (forall k, In k l -> exists s, g k = S754_zero s) ->
  fold_left (fun acc k => F32.add acc (g k)) l acc = acc.
Proof.
  intros Hacc. induction l as [|k l IH]; intros Hg; cbn [fold_left]; auto.
  destruct (Hg k (or_introl eq_refl)) as [s ->].
  replace (F32.add acc (S754_zero s)) with acc
    by (destruct acc; try discriminate; reflexivity).
  apply IH. intros j Hj. apply Hg. now right.
Qed.

Lemma F32_mul_zero_l (s : bool) (w : float) :
  is_finite w = true -> exists s', F32.mul (S754_zero s) w = S754_zero s'.
Proof. destruct w; try discriminate; intros _; eexists; reflexivity. Qed.

(** X3: a NaN angle or angular velocity is not detected: every hidden
    activation is then [relu(NaN)] = 0, every score is the output bias
    alone, and the action is the one the output biases select. *)
Theorem getAction_nan_observation
        (this : TwoWheelBotDQN) (angle angularVelocity : float) :
  well_formed this ->
  forallb is_finite (weightsHiddenOutput this) = true ->
  forallb is_nonzero_finite (biasOutput this) = true ->
  is_nan angle = true \/ is_nan angularVelocity = true ->
  exists fr : frame,
    Good.getAction_frame this angle angularVelocity = Value fr /\
    hidden fr = repeat (Some zero32) 64 /\
    output fr = map Some (biasOutput this) /\
    Good.getAction this angle angularVelocity =
      Value (snd (select_from (biasOutput this) 0 sentinel 0)).
Proof.
  intros Hwf Hw Hb Hnan.
  pose proof (getAction_frame_spec this angle angularVelocity Hwf) as Hf.
  pose proof (getAction_spec this angle angularVelocity Hwf) as Hg.
  cbv zeta in Hf.
  assert (Hx : is_nan (norm_angle angle) = true \/
               is_nan (norm_velocity angularVelocity) = true).
  { destruct Hnan as [H | H]; apply is_nan_true in H; subst; [left | right]; reflexivity. }
  assert (Hhid : hidden_layer this (norm_angle angle) (norm_velocity angularVelocity) =
                 repeat zero32 64).
  { unfold hidden_layer.
    rewrite (map_ext _ (fun _ => zero32)) by (intros h; now apply hidden_unit_nan).
    reflexivity. }
  rewrite Hhid in Hf, Hg.
  destruct Hwf as (_ & _ & Hwho & Hbo). unfold HIDDEN_SIZE, OUTPUT_SIZE in *.
  assert (Hout : output_layer this (repeat zero32 64) = biasOutput this).
  { unfold output_layer.
    rewrite (map_ext_in _ (fun o => nth o (biasOutput this) S754_nan)).
    - replace 3%nat with (length (biasOutput this)) by lia. apply map_nth_seq.
    - intros o Ho. apply in_seq in Ho. unfold output_score.
      apply fold_add_zeros.
      + apply forallb_nth; auto. lia.
      + intros k Hk. apply in_seq in Hk.
        replace (nth k (repeat zero32 64) S754_nan) with (S754_zero false)
          by (symmetry; apply nth_repeat_lt; lia).
        apply F32_mul_zero_l. unfold W_ho. apply forallb_nth; auto. lia. }
  rewrite Hout in Hf, Hg.
  eexists. split; [exact Hf|]. cbn [hidden output].
  split; [reflexivity|]. split; [reflexivity | exact Hg].
Qed.

Lemma getAction_nan_observation_witness :
  Good.getAction Good.bot S754_nan (flit (-200000)) = Value 0 /\
  Good.getAction Good.bot (flit 50000) S754_nan = Value 0.
Proof.
  split.
  - destruct (getAction_nan_observation Good.bot S754_nan (flit (-200000)))
      as (fr & _ & _ & _ & Hg).
    + repeat split; vm_compute; reflexivity.
    + vm_compute; reflexivity.
    + vm_compute; reflexivity.
    + left; reflexivity.
    + rewrite Hg. vm_compute. reflexivity.
  - destruct (getAction_nan_observation Good.bot (flit 50000) S754_nan)
      as (fr & _ & _ & _ & Hg).
    + repeat split; vm_compute; reflexivity.
    + vm_compute; reflexivity.
    + vm_compute; reflexivity.
    + right; reflexivity.
    + rewrite Hg. vm_compute. reflexivity.
Defined.

Lemma relu_zero (s : bool) : Good.relu (S754_zero s) = zero32.
Proof. destruct s; reflexivity. Qed.

(** With both inputs zero the pre-activation of a hidden unit is its bias
    (or a zero, when the bias is one). *)
Lemma hidden_unit_zero (this : TwoWheelBotDQN) (s0 s1 : bool) (h : nat) :
  is_finite (nth h (biasHidden this) S754_nan) = true ->
  is_finite (W_ih this 0 h) = true -> is_finite (W_ih this 1 h) = true ->
  hidden_unit this (S754_zero s0) (S754_zero s1) h =
  Good.relu (nth h (biasHidden this) S754_nan).
Proof.
  unfold hidden_unit. rewrite <- relu_fmax.
  generalize (nth h (biasHidden this) S754_nan) (W_ih this 0 h) (W_ih this 1 h).
  intros b w0 w1 Hb H0 H1.
  destruct (F32_mul_zero_l s0 w0 H0) as [z0 ->].
  destruct (F32_mul_zero_l s1 w1 H1) as [z1 ->].
  destruct b as [sb | sb | | sb mb eb]; try discriminate.
  - destruct sb, z0, z1; reflexivity.
  - reflexivity.
Qed.

(** X4: at the observation (0, 0) the normalized inputs are zero, every
    hidden activation is [relu] of the hidden bias, whatever the
    input weights. *)
Theorem getAction_zero_observation (this : TwoWheelBotDQN) (s0 s1 : bool) :
  well_formed this ->
  forallb is_finite (weightsInputHidden this) = true ->
  forallb is_finite (biasHidden this) = true ->
  exists fr : frame,
    Good.getAction_frame this (S754_zero s0) (S754_zero s1) = Value fr /\
    input fr = [Some (S754_zero s0); Some (S754_zero s1)] /\
    hidden fr = map (fun b => Some (Good.relu b)) (biasHidden this).
Proof.
  intros Hwf Hw Hb.
  pose proof (getAction_frame_spec this (S754_zero s0) (S754_zero s1) Hwf) as Hf.
  cbv zeta in Hf.
  replace (norm_angle (S754_zero s0)) with (S754_zero s0) in Hf
    by (destruct s0; reflexivity).
  replace (norm_velocity (S754_zero s1)) with (S754_zero s1) in Hf
    by (destruct s1; reflexivity).
  destruct Hwf as (Hwih & Hbh & _ & _). unfold INPUT_SIZE, HIDDEN_SIZE in *.
  assert (Hhid : hidden_layer this (S754_zero s0) (S754_zero s1) =
                 map Good.relu (biasHidden this)).
  { unfold hidden_layer.
    rewrite (map_ext_in _ (fun h => Good.relu (nth h (biasHidden this) S754_nan))).
    - rewrite <- (map_map (fun h => nth h (biasHidden this) S754_nan) Good.relu).
      replace 64%nat with (length (biasHidden this)) by lia.
      now rewrite map_nth_seq.
    - intros h Hh. apply in_seq in Hh.
      apply hidden_unit_zero; unfold W_ih; apply forallb_nth; auto; lia. }
  rewrite Hhid, map_map in Hf.
  eexists. split; [exact Hf|]. cbn [input hidden]. split; reflexivity.
Qed.

Lemma getAction_zero_observation_witness :
  exists fr : frame,
    Good.getAction_frame Good.bot (S754_zero false) (S754_zero false) = Value fr /\
    input fr = [Some (S754_zero false); Some (S754_zero false)] /\
    hidden fr = map (fun b => Some (Good.relu b)) (biasHidden Good.bot).
Proof.
  apply (getAction_zero_observation Good.bot false false).
  - repeat split; vm_compute; reflexivity.
  - vm_compute; reflexivity.
  - vm_compute; reflexivity.
Defined.

(** Two arguments saturate alike when both are at or beyond the positive
    bound [c], or both at or beyond [-c]. *)
Lemma normalize_saturates_alike (x x' : float) (mc : positive) (ec : Z) :
  Zpos (digits2_pos mc) = 53 -> -1074 < ec ->
  let c := S754_finite false mc ec in
  (fle c (double_of_float x) = true /\ fle c (double_of_float x') = true) \/
  (fle (double_of_float x) (SFopp c) = true /\
   fle (double_of_float x') (SFopp c) = true) ->
  Good.constrain (float_of_double (F64.div (double_of_float x) c)) minus_one32 one32 =
  Good.constrain (float_of_double (F64.div (double_of_float x') c)) minus_one32 one32.
Proof.
  intros Hd He c H.
  destruct (normalize_saturates x mc ec Hd He) as [H1 H2].
  destruct (normalize_saturates x' mc ec Hd He) as [H1' H2'].
  fold c in H1, H2, H1', H2'.
  destruct H as [[Ha Hb] | [Ha Hb]].
  - now rewrite (H1 Ha), (H1' Hb).
  - now rewrite (H2 Ha), (H2' Hb).
Qed.

(** X5: beyond the training domain the policy no longer sees the
    magnitude: two angles that are both at least [M_PI / 3], or both at
    most [-(M_PI / 3)], and two angular velocities that are both at least
    10.0, or both at most -10.0, give the same frame and the same action. *)
Theorem getAction_blind_beyond_domain
        (this : TwoWheelBotDQN) (angle angle' angularVelocity angularVelocity' : float) :
  (fle pi_3 (double_of_float angle) = true /\
   fle pi_3 (double_of_float angle') = true) \/
  (fle (double_of_float angle) (SFopp pi_3) = true /\
   fle (double_of_float angle') (SFopp pi_3) = true) ->
  (fle ten (double_of_float angularVelocity) = true /\
   fle ten (double_of_float angularVelocity') = true) \/
  (fle (double_of_float angularVelocity) (SFopp ten) = true /\
   fle (double_of_float angularVelocity') (SFopp ten) = true) ->
  Good.getAction_frame this angle angularVelocity =
    Good.getAction_frame this angle' angularVelocity' /\
  Good.getAction this angle angularVelocity =
    Good.getAction this angle' angularVelocity'.
Proof.
  intros Ha Hv.
  rewrite pi_3_eq in Ha. rewrite ten_eq in Hv.
  pose proof (normalize_saturates_alike angle angle' 4716158501352293 (-52)
                eq_refl eq_refl Ha) as Ea.
  pose proof (normalize_saturates_alike angularVelocity angularVelocity'
                5629499534213120 (-49) eq_refl eq_refl Hv) as Ev.
  cbv zeta in Ea, Ev. rewrite <- pi_3_eq in Ea. rewrite <- ten_eq in Ev.
  assert (E : Good.getAction_frame this angle angularVelocity =
              Good.getAction_frame this angle' angularVelocity').
  { unfold Good.getAction_frame. fold one32 minus_one32 pi_3 ten.
    rewrite Ea, Ev. reflexivity. }
  split; [exact E|]. unfold Good.getAction. now rewrite E.
Qed.

Lemma getAction_blind_beyond_domain_witness :
  Good.getAction_frame Good.bot (flit 1100000) (flit (-10000000)) =
    Good.getAction_frame Good.bot (flit 3000000) (flit (-15000000)) /\
  Good.getAction Good.bot (flit 1100000) (flit (-10000000)) =
    Good.getAction Good.bot (flit 3000000) (flit (-15000000)).
Proof.
  apply (getAction_blind_beyond_domain Good.bot).
  - left. split; vm_compute; reflexivity.
  - right. split; vm_compute; reflexivity.
Defined.

Lemma flt_irrefl (x : float) : flt x x = false.
Proof.
  destruct (flt x x) eqn:E; auto. exfalso.
  destruct (flt_is_nan _ _ E) as [Hx _].
  unfold flt in E. apply SFltb_rank in E; auto.
  destruct (rank x) as [[a b] c]. unfold lex_lt in E. lia.
Qed.

(** X6: [constrain] with ordered bounds returns a value between the
    bounds for every value that is not a NaN, is idempotent, and passes a
    NaN through unchanged. *)
Theorem constrain_within_bounds (value min max : float) :
  is_nan value = false -> is_nan min = false -> is_nan max = false ->
  fle min max = true ->
  fle min (Good.constrain value min max) = true /\
  fle (Good.constrain value min max) max = true /\
  Good.constrain (Good.constrain value min max) min max =
    Good.constrain value min max /\
  Good.constrain S754_nan min max = S754_nan.
Proof.
  intros Hv Hlo Hhi Hle.
  assert (Hhl : flt max min = false).
  { destruct (flt max min) eqn:E; auto. exfalso. apply (flt_not_fle max min); auto. }
  assert (Hnan : Good.constrain S754_nan min max = S754_nan).
  { unfold Good.constrain, flt, fgt, SFltb. cbn [SFcompare].
    destruct max; reflexivity. }
  unfold Good.constrain.
  destruct (flt value min) eqn:E1; [|destruct (fgt value max) eqn:E2].
  - rewrite flt_irrefl. unfold fgt. fold (flt max min). rewrite Hhl.
    repeat split; auto using fle_refl.
  - unfold fgt at 2. fold (flt max min). rewrite Hhl.
    unfold fgt. fold (flt max max). rewrite flt_irrefl.
    repeat split; auto using fle_refl.
  - rewrite E1, E2. repeat split; auto.
    + apply fle_of_not_fgt; auto.
    + apply fle_of_not_fgt; auto.
Qed.

Lemma constrain_within_bounds_witness :
  fle minus_one32 (Good.constrain (flit 2500000) minus_one32 one32) = true /\
  fle (Good.constrain (flit 2500000) minus_one32 one32) one32 = true /\
  Good.constrain (Good.constrain (flit 2500000) minus_one32 one32) minus_one32 one32 =
    Good.constrain (flit 2500000) minus_one32 one32 /\
  Good.constrain S754_nan minus_one32 one32 = S754_nan.
Proof.
  apply (constrain_within_bounds (flit 2500000) minus_one32 one32); reflexivity.
Defined.

Lemma binary_round_aux_opp (prec emax : Z) (s : bool) (m e : Z) (l : location) :
  binary_round_aux prec emax (negb s) m e l =
  SFopp (binary_round_aux prec emax s m e l).
Proof.
  unfold binary_round_aux.
  destruct (shr_fexp prec emax m e l) as [r1 e1].
  destruct (shr_fexp prec emax _ e1 loc_Exact) as [r2 e2].
  destruct (shr_m r2); try reflexivity.
  destruct (e2 <=? emax - prec); reflexivity.
Qed.

Lemma SFconv_opp (prec emax : Z) (x : spec_float) :
  SFconv prec emax (SFopp x) = SFopp (SFconv prec emax x).
Proof.
  destruct x as [s | s | | s m e]; try reflexivity.
  cbn [SFopp SFconv]. unfold binary_round.
  destruct (shl_align m e _) as [mz ez]. apply binary_round_aux_opp.
Qed.

Lemma SFdiv_opp_l (prec emax : Z) (x y : spec_float) :
  SFdiv prec emax (SFopp x) y = SFopp (SFdiv prec emax x y).
Proof.
  destruct x as [sx | sx | | sx mx ex]; destruct y as [sy | sy | | sy my ey];
    try reflexivity; cbn [SFopp SFdiv];
    try (destruct sx, sy; reflexivity).
  destruct (SFdiv_core_binary prec emax (Zpos mx) ex (Zpos my) ey) as [[mz ez] lz].
  rewrite <- binary_round_aux_opp. f_equal. destruct sx, sy; reflexivity.
Qed.

Lemma SFltb_opp (a b : spec_float) : SFltb (SFopp a) (SFopp b) = SFltb b a.
Proof.
  destruct a as [sa | sa | | sa ma ea]; destruct b as [sb | sb | | sb mb eb];
    try reflexivity; cbn [SFopp];
    try (destruct sa; reflexivity); try (destruct sb; reflexivity);
    try (destruct sa, sb; reflexivity).
  rewrite !SFltb_finite. destruct sa, sb; cbn [negb]; try reflexivity.
  - rewrite (Z.eqb_sym ea eb). reflexivity.
  - rewrite (Z.eqb_sym ea eb). reflexivity.
Qed.

Lemma constrain_opp (value : float) :
  Good.constrain (SFopp value) minus_one32 one32 =
  SFopp (Good.constrain value minus_one32 one32).
Proof.
  destruct (constrain_saturating value) as (_ & Hhi & _).
  unfold Good.constrain in *. unfold flt, fgt in *.
  change minus_one32 with (SFopp one32) at 1.
  rewrite SFltb_opp.
  change one32 with (SFopp minus_one32) at 2.
  rewrite SFltb_opp.
  destruct (SFltb one32 value) eqn:E1.
  - rewrite (Hhi eq_refl). reflexivity.
  - destruct (SFltb value minus_one32); reflexivity.
Qed.

(** X7: the normalization is odd: negating the angle and the angular
    velocity negates the two inputs of the network. *)
Theorem getAction_normalization_odd
        (this : TwoWheelBotDQN) (angle angularVelocity : float) :
  well_formed this ->
  exists (fr fr' : frame) (x0 x1 : float),
    Good.getAction_frame this angle angularVelocity = Value fr /\
    input fr = [Some x0; Some x1] /\
    Good.getAction_frame this (SFopp angle) (SFopp angularVelocity) = Value fr' /\
    input fr' = [Some (SFopp x0); Some (SFopp x1)].
Proof.
  intros Hwf.
  pose proof (getAction_frame_spec this angle angularVelocity Hwf) as Hf.
  pose proof (getAction_frame_spec this (SFopp angle) (SFopp angularVelocity) Hwf) as Hf'.
  cbv zeta in Hf, Hf'.
  assert (Ea : norm_angle (SFopp angle) = SFopp (norm_angle angle)).
  { unfold norm_angle, double_of_float, float_of_double, F64.div.
    now rewrite SFconv_opp, SFdiv_opp_l, SFconv_opp, constrain_opp. }
  assert (Ev : norm_velocity (SFopp angularVelocity) = SFopp (norm_velocity angularVelocity)).
  { unfold norm_velocity, double_of_float, float_of_double, F64.div.
    now rewrite SFconv_opp, SFdiv_opp_l, SFconv_opp, constrain_opp. }
  rewrite Ea, Ev in Hf'.
  eexists. eexists. exists (norm_angle angle), (norm_velocity angularVelocity).
  split; [exact Hf|]. split; [reflexivity|]. split; [exact Hf'|]. reflexivity.
Qed.

Lemma getAction_normalization_odd_witness :
  exists (fr fr' : frame) (x0 x1 : float),
    Good.getAction_frame Good.bot (flit 50000) (flit (-200000)) = Value fr /\
    input fr = [Some x0; Some x1] /\
    Good.getAction_frame Good.bot (SFopp (flit 50000)) (SFopp (flit (-200000))) =
      Value fr' /\
    input fr' = [Some (SFopp x0); Some (SFopp x1)].
Proof.
  apply (getAction_normalization_odd Good.bot (flit 50000) (flit (-200000))).
  repeat split; vm_compute; reflexivity.
Defined.

Lemma bounded_by_is_finite (N : Z) (x : spec_float) :
  bounded_by N x = true -> is_finite x = true.
Proof. destruct x; try discriminate; reflexivity. Qed.

(** X8: with parameters within 10 and finite arguments nothing in the
    hidden layer overflows or becomes a NaN.  Both inputs are finite with
    magnitude at most 1, and for each of the 64 cells every value the body
    computes on the way is finite: the bias (at most 10), the two products
    [input[i] * weightsInputHidden[i * HIDDEN_SIZE + h]] (at most 10
    each), the two partial sums (at most 20 and 30), and the activation
    the cell ends with, which is not negative and at most 30. *)
Theorem hidden_layer_range
        (this : TwoWheelBotDQN) (angle angularVelocity : float) :
  well_formed this -> tensors_within 10 this = true ->
  finite32 angle -> finite32 angularVelocity ->
  exists (fr : frame) (x0 x1 : float),
    Good.getAction_frame this angle angularVelocity = Value fr /\
    input fr = [Some x0; Some x1] /\
    bounded_by 1 x0 = true /\ is_finite x0 = true /\
    bounded_by 1 x1 = true /\ is_finite x1 = true /\
    forall h : nat,
      (h < 64)%nat ->
      exists b p0 p1 s1 s2 : float,
        load (biasHidden this) (Z.of_nat h) = Value b /\
        p0 = F32.mul x0 (W_ih this 0 h) /\
        p1 = F32.mul x1 (W_ih this 1 h) /\
        s1 = F32.add b p0 /\
        s2 = F32.add s1 p1 /\
        fetch (hidden fr) (Z.of_nat h) = Value (Good.relu s2) /\
        bounded_by 10 b = true /\ bounded_by 10 p0 = true /\
        bounded_by 10 p1 = true /\ bounded_by 20 s1 = true /\
        bounded_by 30 s2 = true /\ bounded_by 30 (Good.relu s2) = true /\
        forallb is_finite [b; p0; p1; s1; s2; Good.relu s2] = true /\
        fle zero32 (Good.relu s2) = true.
Proof.
  intros Hwf Ht Ha Hv. apply finite32_not_nan in Ha, Hv.
  pose proof (getAction_frame_spec this angle angularVelocity Hwf) as Hf.
  cbv zeta in Hf.
  pose proof (norm_angle_bounded angle Ha) as H0.
  pose proof (norm_velocity_bounded angularVelocity Hv) as H1.
  remember (norm_angle angle) as x0 eqn:E0. clear E0.
  remember (norm_velocity angularVelocity) as x1 eqn:E1. clear E1.
  eexists. exists x0, x1.
  split; [exact Hf|]. cbn [input hidden].
  split; [reflexivity|]. split; [exact H0|].
  split; [exact (bounded_by_is_finite _ _ H0)|]. split; [exact H1|].
  split; [exact (bounded_by_is_finite _ _ H1)|].
  intros h Hh.
  destruct Hwf as (Hwih & Hbh & _ & _). unfold INPUT_SIZE, HIDDEN_SIZE in Hwih, Hbh.
  unfold tensors_within in Ht. rewrite !andb_true_iff in Ht.
  destruct Ht as [[[Tw Tb] _] _].
  assert (Bb : bounded_by 10 (nth h (biasHidden this) S754_nan) = true)
    by (apply forallb_nth; auto; lia).
  assert (B0 : bounded_by 10 (F32.mul x0 (W_ih this 0 h)) = true).
  { apply (F32_mul_bounded 1 10); auto; try lia.
    unfold W_ih. apply forallb_nth; auto; lia. }
  assert (B1 : bounded_by 10 (F32.mul x1 (W_ih this 1 h)) = true).
  { apply (F32_mul_bounded 1 10); auto; try lia.
    unfold W_ih. apply forallb_nth; auto; lia. }
  pose proof (F32_add_bounded 10 10 _ _ ltac:(lia) ltac:(lia) ltac:(lia) Bb B0) as S1.
  pose proof (F32_add_bounded 20 10 _ _ ltac:(lia) ltac:(lia) ltac:(lia) S1 B1) as S2.
  change (10 + 10) with 20 in S1. change (20 + 10) with 30 in S2.
  remember (nth h (biasHidden this) S754_nan) as b eqn:Eb.
  remember (F32.mul x0 (W_ih this 0 h)) as p0 eqn:Ep0.
  remember (F32.mul x1 (W_ih this 1 h)) as p1 eqn:Ep1.
  remember (F32.add b p0) as s1 eqn:Es1.
  remember (F32.add s1 p1) as s2 eqn:Es2.
  assert (R : bounded_by 30 (Good.relu s2) = true)
    by (rewrite relu_fmax; now apply fmax_zero_bounded).
  exists b, p0, p1, s1, s2.
  split.
  { rewrite Eb. apply load_nth; [reflexivity | unfold float in *; lia]. }
  split; [reflexivity|]. split; [reflexivity|]. split; [exact Es1|]. split; [exact Es2|].
  split.
  { unfold fetch.
    rewrite (load_nth _ _ h (Some S754_nan) eq_refl)
      by (rewrite length_map, hidden_layer_length; exact Hh).
    cbn [bind].
    rewrite (nth_indep _ (Some S754_nan) (Some (nth 0 (hidden_layer this x0 x1) S754_nan)))
      by (rewrite length_map, hidden_layer_length; exact Hh).
    change (Some (nth 0 (hidden_layer this x0 x1) S754_nan))
      with ((fun y : float => Some y) (nth 0 (hidden_layer this x0 x1) S754_nan)).
    rewrite map_nth.
    rewrite (nth_indep _ _ S754_nan) by (rewrite hidden_layer_length; exact Hh).
    rewrite hidden_layer_nth by exact Hh.
    unfold hidden_unit. rewrite <- relu_fmax.
    rewrite Es2, Es1, Ep0, Ep1, Eb. reflexivity. }
  split; [exact Bb|]. split; [exact B0|]. split; [exact B1|].
  split; [exact S1|]. split; [exact S2|]. split; [exact R|].
  split; [|apply relu_spec].
  cbn [forallb].
  rewrite (bounded_by_is_finite _ _ Bb), (bounded_by_is_finite _ _ B0),
    (bounded_by_is_finite _ _ B1), (bounded_by_is_finite _ _ S1),
    (bounded_by_is_finite _ _ S2), (bounded_by_is_finite _ _ R).
  reflexivity.
Qed.

Lemma hidden_layer_range_witness :
  exists (fr : frame) (x0 x1 : float),
    Good.getAction_frame Good.bot (flit 50000) (flit (-200000)) = Value fr /\
    input fr = [Some x0; Some x1] /\
    bounded_by 1 x0 = true /\ is_finite x0 = true /\
    bounded_by 1 x1 = true /\ is_finite x1 = true /\
    forall h : nat,
      (h < 64)%nat ->
      exists b p0 p1 s1 s2 : float,
        load (biasHidden Good.bot) (Z.of_nat h) = Value b /\
        p0 = F32.mul x0 (W_ih Good.bot 0 h) /\
        p1 = F32.mul x1 (W_ih Good.bot 1 h) /\
        s1 = F32.add b p0 /\
        s2 = F32.add s1 p1 /\
        fetch (hidden fr) (Z.of_nat h) = Value (Good.relu s2) /\
        bounded_by 10 b = true /\ bounded_by 10 p0 = true /\
        bounded_by 10 p1 = true /\ bounded_by 20 s1 = true /\
        bounded_by 30 s2 = true /\ bounded_by 30 (Good.relu s2) = true /\
        forallb is_finite [b; p0; p1; s1; s2; Good.relu s2] = true /\
        fle zero32 (Good.relu s2) = true.
Proof.
  apply (hidden_layer_range Good.bot (flit 50000) (flit (-200000))).
  - repeat split; vm_compute; reflexivity.
  - vm_compute; reflexivity.
  - split; vm_compute; reflexivity.
  - split; vm_compute; reflexivity.
Defined.

Lemma Great_getAction_frame_eq (this : TwoWheelBotDQN) (a v : float) :
  Great.getAction_frame this a v = Good.getAction_frame this a v.
Proof.
  unfold Good.getAction_frame, Great.getAction_frame,
    Good.relu, Great.relu, Good.constrain, Great.constrain. reflexivity.
Qed.

Lemma Okayish_getAction_frame_eq (this : TwoWheelBotDQN) (a v : float) :
  Okayish.getAction_frame this a v = Good.getAction_frame this a v.
Proof.
  unfold Good.getAction_frame, Okayish.getAction_frame,
    Good.relu, Okayish.relu, Good.constrain, Okayish.constrain. reflexivity.
Qed.

Lemma frame_first_argmax (this : TwoWheelBotDQN) (angle angularVelocity : float) :
  well_formed this -> tensors_within 10 this = true ->
  finite32 angle -> finite32 angularVelocity ->
  exists (fr : frame) (scores : list float) (i : nat),
    Good.getAction_frame this angle angularVelocity = Value fr /\
    output fr = map Some scores /\ length scores = 3%nat /\
    Forall (fun s => flt sentinel s = true /\ bounded_by 19210 s = true) scores /\
    bestAction fr = Z.of_nat i /\
    first_argmax scores i.
Proof.
  intros Hwf Ht Ha Hv. apply finite32_not_nan in Ha, Hv.
  pose proof (getAction_argmax this angle angularVelocity Hwf Ht Ha Hv) as H.
  pose proof (getAction_frame_spec this angle angularVelocity Hwf) as Hf.
  pose proof (output_layer_length this
                (hidden_layer this (norm_angle angle) (norm_velocity angularVelocity))) as Hl.
  cbv zeta in H, Hf.
  remember (output_layer this
              (hidden_layer this (norm_angle angle) (norm_velocity angularVelocity)))
    as scores eqn:Es.
  clear Es.
  destruct H as (Hb & Hs & i & Esel & Harg).
  rewrite Esel in Hf. cbn [fst snd] in Hf.
  eexists. exists scores, i.
  split; [exact Hf|]. cbn [output bestAction].
  split; [reflexivity|]. split; [exact Hl|]. split.
  { apply Forall_forall. intros s Hin. rewrite Forall_forall in Hs.
    rewrite forallb_forall in Hb. auto. }
  split; [reflexivity | exact Harg].
Qed.

Lemma Great_bot_well_formed : well_formed Great.bot.
Proof. repeat split; vm_compute; reflexivity. Qed.

Lemma Great_bot_within : tensors_within 10 Great.bot = true.
Proof. vm_compute. reflexivity. Qed.

Lemma Okayish_bot_well_formed : well_formed Okayish.bot.
Proof. repeat split; vm_compute; reflexivity. Qed.

Lemma Okayish_bot_within : tensors_within 10 Okayish.bot = true.
Proof. vm_compute. reflexivity. Qed.

(** X9: the tensors of the great and of the okayish file are within 10
    as well, so for them too, with their own [getAction] and every pair of
    finite arguments, each score is finite, within 19210 and above the
    sentinel, and the action is the lowest index of a maximal score. *)
Theorem shipped_great_okayish_argmax (angle angularVelocity : float) :
  finite32 angle -> finite32 angularVelocity ->
  (exists (fr : frame) (scores : list float) (i : nat),
      Great.getAction_frame Great.bot angle angularVelocity = Value fr /\
      output fr = map Some scores /\ length scores = 3%nat /\
      Forall (fun s => flt sentinel s = true /\ bounded_by 19210 s = true) scores /\
      Great.getAction Great.bot angle angularVelocity = Value (Z.of_nat i) /\
      first_argmax scores i) /\
  (exists (fr : frame) (scores : list float) (i : nat),
      Okayish.getAction_frame Okayish.bot angle angularVelocity = Value fr /\
      output fr = map Some scores /\ length scores = 3%nat /\
      Forall (fun s => flt sentinel s = true /\ bounded_by 19210 s = true) scores /\
      Okayish.getAction Okayish.bot angle angularVelocity = Value (Z.of_nat i) /\
      first_argmax scores i).
Proof.
  intros Ha Hv. split.
  - destruct (frame_first_argmax Great.bot angle angularVelocity
                Great_bot_well_formed Great_bot_within Ha Hv)
      as (fr & scores & i & Hf & Ho & Hl & Hs & Hb & Harg).
    exists fr, scores, i.
    unfold Great.getAction. rewrite Great_getAction_frame_eq, Hf. cbn [bind].
    rewrite Hb. split; [reflexivity|]. split; [exact Ho|]. split; [exact Hl|].
    split; [exact Hs|]. split; [reflexivity | exact Harg].
  - destruct (frame_first_argmax Okayish.bot angle angularVelocity
                Okayish_bot_well_formed Okayish_bot_within Ha Hv)
      as (fr & scores & i & Hf & Ho & Hl & Hs & Hb & Harg).
    exists fr, scores, i.
    unfold Okayish.getAction. rewrite Okayish_getAction_frame_eq, Hf. cbn [bind].
    rewrite Hb. split; [reflexivity|]. split; [exact Ho|]. split; [exact Hl|].
    split; [exact Hs|]. split; [reflexivity | exact Harg].
Qed.

Lemma shipped_great_okayish_argmax_witness :
  (exists (fr : frame) (scores : list float) (i : nat),
      Great.getAction_frame Great.bot (flit 50000) (flit (-200000)) = Value fr /\
      output fr = map Some scores /\ length scores = 3%nat /\
      Forall (fun s => flt sentinel s = true /\ bounded_by 19210 s = true) scores /\
      Great.getAction Great.bot (flit 50000) (flit (-200000)) = Value (Z.of_nat i) /\
      first_argmax scores i) /\
  (exists (fr : frame) (scores : list float) (i : nat),
      Okayish.getAction_frame Okayish.bot (flit 50000) (flit (-200000)) = Value fr /\
      output fr = map Some scores /\ length scores = 3%nat /\
      Forall (fun s => flt sentinel s = true /\ bounded_by 19210 s = true) scores /\
      Okayish.getAction Okayish.bot (flit 50000) (flit (-200000)) = Value (Z.of_nat i) /\
      first_argmax scores i).
Proof.
  apply (shipped_great_okayish_argmax (flit 50000) (flit (-200000))).
  - split; vm_compute; reflexivity.
  - split; vm_compute; reflexivity.
Defined.

Lemma biased_bot_well_formed (b0 b1 b2 : float) : well_formed (biased_bot b0 b1 b2).
Proof. repeat split. Qed.

(** With all weights zero a hidden unit is [relu] of a zero or of a NaN. *)
Lemma biased_bot_hidden (b0 b1 b2 x0 x1 : float) (h : nat) :
  (h < 64)%nat -> hidden_unit (biased_bot b0 b1 b2) x0 x1 h = zero32.
Proof.
  intros Hh. unfold hidden_unit, W_ih, biased_bot.
  cbn [biasHidden weightsInputHidden].
  rewrite !nth_repeat_lt by lia.
  destruct x0 as [[|] | [|] | | [|] m0 e0], x1 as [[|] | [|] | | [|] m1 e1]; reflexivity.
Qed.

Lemma biased_bot_scores (b0 b1 b2 x0 x1 : float) :
  is_nonzero_finite b0 = true -> is_nonzero_finite b1 = true ->
  is_nonzero_finite b2 = true ->
  output_layer (biased_bot b0 b1 b2) (hidden_layer (biased_bot b0 b1 b2) x0 x1) =
  [b0; b1; b2].
Proof.
  intros H0 H1 H2.
  assert (Hs : forall o b, (o < 3)%nat -> is_nonzero_finite b = true ->
                 nth o [b0; b1; b2] S754_nan = b ->
                 output_score (biased_bot b0 b1 b2)
                   (hidden_layer (biased_bot b0 b1 b2) x0 x1) o = b).
  { intros o b Ho Hb Eb. unfold output_score. cbn [biasOutput biased_bot]. rewrite Eb.
    apply fold_add_zeros; auto.
    intros k Hk. apply in_seq in Hk.
    rewrite hidden_layer_nth, biased_bot_hidden by lia.
    unfold W_ho, biased_bot. cbn [weightsHiddenOutput]. rewrite nth_repeat_lt by lia.
    exists false. reflexivity. }
  unfold output_layer. cbn [seq map].
  rewrite (Hs 0%nat b0), (Hs 1%nat b1), (Hs 2%nat b2); auto.
Qed.

(** X10: the tie-break on hand-made parameters: with all weights zero
    the scores are the output biases for every observation, and when the
    biases at indices 0 and 2 are one and the same maximal value above the
    sentinel, [getAction] returns index 0. *)
Theorem tie_break_lowest_index (b b1 angle angularVelocity : float) :
  is_nonzero_finite b = true -> is_nonzero_finite b1 = true ->
  flt sentinel b = true -> fle b1 b = true ->
  exists fr : frame,
    Good.getAction_frame (biased_bot b b1 b) angle angularVelocity = Value fr /\
    output fr = [Some b; Some b1; Some b] /\
    maxValue fr = b /\
    Good.getAction (biased_bot b b1 b) angle angularVelocity = Value 0.
Proof.
  intros Hb Hb1 Hs Hle.
  pose proof (getAction_frame_spec (biased_bot b b1 b) angle angularVelocity
                (biased_bot_well_formed b b1 b)) as Hf.
  pose proof (getAction_spec (biased_bot b b1 b) angle angularVelocity
                (biased_bot_well_formed b b1 b)) as Hg.
  cbv zeta in Hf.
  rewrite (biased_bot_scores b b1 b _ _ Hb Hb1 Hb) in Hf, Hg.
  assert (Hsel : select_from [b; b1; b] 0 sentinel 0 = (b, 0)).
  { cbn [select_from]. unfold fgt. fold (flt sentinel b). rewrite Hs.
    fold (flt b b1) (flt b b). rewrite flt_irrefl.
    destruct (flt b b1) eqn:E; [|reflexivity].
    exfalso. destruct (flt_is_nan _ _ E) as [Hnb Hnb1].
    exact (flt_not_fle b b1 Hnb Hnb1 E Hle). }
  rewrite Hsel in Hf, Hg. cbn [fst snd] in Hf, Hg.
  eexists. split; [exact Hf|]. cbn [output maxValue map].
  split; [reflexivity|]. split; [reflexivity | exact Hg].
Qed.

Lemma tie_break_lowest_index_witness :
  exists fr : frame,
    Good.getAction_frame (biased_bot (F32.of_int 5) (F32.of_int 3) (F32.of_int 5))
      (flit 50000) (flit (-200000)) = Value fr /\
    output fr = [Some (F32.of_int 5); Some (F32.of_int 3); Some (F32.of_int 5)] /\
    maxValue fr = F32.of_int 5 /\
    Good.getAction (biased_bot (F32.of_int 5) (F32.of_int 3) (F32.of_int 5))
      (flit 50000) (flit (-200000)) = Value 0.
Proof.
  apply (tie_break_lowest_index (F32.of_int 5) (F32.of_int 3)); reflexivity.
Defined.
